(** * Multi-armed bandit agents and policies (bandits/agent.py, bandits/policy.py)

    A shallow embedding of the decision-and-learning loop: the policies that
  pick an arm from an agent's published state and the agents that update
  their estimates from an observed reward.

  Numbers.  Rewards, estimates and posterior parameters are numpy float64
  values in the source; they are modelled as exact reals ([R]), so rounding
  and overflow are not represented.  The one place where the source relies
  on IEEE special values (the UCB bonus, which divides by a possibly zero
  attempt count) is modelled with an explicit type [npfloat] of finite
  values, infinities and NaN.  Attempt counts and the step counter only
  ever count upwards from zero and are modelled as [nat].

  Errors.  A Python exception is a [Raise] result. *)

From Stdlib Require Import Reals Lra Lia ZArith.
From stdpp Require Import base option list.

Open Scope R_scope.

(** ** Python exceptions as results *)

Inductive exn : Set := IndexError | ValueError | ZeroDivisionError.

Inductive result (A : Type) : Type :=
  | Ok (a : A)
  | Raise (e : exn).
Arguments Ok {A} a.
Arguments Raise {A} e.

#[global] Instance result_ret : MRet result := fun _ a => Ok a.
#[global] Instance result_bind : MBind result := fun _ _ f m =>
  match m with
  | Ok a => f a
  | Raise e => Raise e
  end.

Definition raises {A : Type} (m : result A) : Prop := exists e, m = Raise e.

(** ** The fragment of numpy the source uses *)

Module np.

(** [prior * np.ones(k)], [np.zeros(k)], [np.ones(k)]. *)
Definition full {A : Type} (k : nat) (x : A) : list A := replicate k x.

(** [arr[:] = x]: every cell overwritten, the shape kept. *)
Definition fill {A : Type} (x : A) (arr : list A) : list A :=
  (fun _ => x) <$> arr.

(** [arr[idx] = f(idx, arr[idx])], the shape of the in-place statements
    [arr[idx] += e] of the source, for an index that is a Python value:
    - an integer [i] addresses cell [i] and raises IndexError when
      [i >= len(arr)];
    - [None] is numpy's [newaxis]: [arr[None]] is a view of the whole
      array (shape (1, k)), so the statement updates every cell, each
      with its own operand, and raises nothing. *)
Definition iupdate {A : Type} (f : nat -> A -> A) (idx : option nat)
    (arr : list A) : result (list A) :=
  match idx with
  | None => Ok (imap f arr)
  | Some i =>
      if decide (i < length arr)%nat then Ok (alter (f i) i arr)
      else Raise IndexError
  end.

(** [arr[i]] for an integer index. *)
Definition getitem {A : Type} (arr : list A) (i : nat) : result A :=
  match arr !! i with
  | Some x => Ok x
  | None => Raise IndexError
  end.

(** [np.sum] over counts and over reals. *)
Definition sum_nat (arr : list nat) : nat := foldr Nat.add 0%nat arr.
Definition sum (arr : list R) : R := foldr Rplus 0 arr.

(** [np.argmax]: the first index holding the maximum; ValueError on an
    empty array. *)
Fixpoint argmax_from (best : nat) (bv : R) (i : nat) (arr : list R) : nat :=
  match arr with
  | [] => best
  | x :: rest =>
      if Rlt_dec bv x then argmax_from i x (S i) rest
      else argmax_from best bv (S i) rest
  end.

Definition argmax (arr : list R) : result nat :=
  match arr with
  | [] => Raise ValueError
  | x :: rest => Ok (argmax_from 0 x 1 rest)
  end.

(** [max(arr.shape)] of a one-dimensional array. *)
Definition max_shape {A : Type} (arr : list A) : nat := length arr.

(** [np.where(cond)[0]]: the indices at which the condition holds, in
    increasing order. *)
Fixpoint where_from {A : Type} (cond : A -> bool) (i : nat) (arr : list A)
    : list nat :=
  match arr with
  | [] => []
  | x :: rest =>
      if cond x then i :: where_from cond (S i) rest
      else where_from cond (S i) rest
  end.

Definition where_ {A : Type} (cond : A -> bool) (arr : list A) : list nat :=
  where_from cond 0 arr.

(** [arr == v] on reals. *)
Definition eq_R (v x : R) : bool := if Req_dec_T x v then true else false.

(** [np.random.choice(a)] on a sequence [a]: one of its elements, ValueError
    when it is empty.  The draw of the global generator is the input [pick];
    every element is the result of some draw. *)
Definition random_choice {A : Type} (pick : nat) (a : list A) : result A :=
  match a !! (pick mod length a)%nat with
  | Some x => Ok x
  | None => Raise ValueError
  end.

(** [np.cumsum]. *)
Fixpoint cumsum_from (acc : R) (arr : list R) : list R :=
  match arr with
  | [] => []
  | x :: rest => (acc + x) :: cumsum_from (acc + x) rest
  end.

Definition cumsum (arr : list R) : list R := cumsum_from 0 arr.

End np.

(** ** agent.py: the base Agent *)

Module Agent.

Record state (P : Type) : Type := mk {
  policy : P;
  k : nat;
  prior : R;
  gamma : option R;
  value_estimates : list R;
  action_attempts : list nat;
  t : nat;
  last_action : option nat
}.
Arguments mk {P}.
Arguments policy {P}.
Arguments k {P}.
Arguments prior {P}.
Arguments gamma {P}.
Arguments value_estimates {P}.
Arguments action_attempts {P}.
Arguments t {P}.
Arguments last_action {P}.

(** The interface a policy object offers: [policy.choose(agent)].  A policy
    may update its own fields (FrequentistPolicy does), may raise, and
    returns a Python value (an index, or [None]). *)
Class Policy (P : Type) : Type :=
  policy_choose : P -> state P -> result (P * option nat).

(** [Agent.__init__(bandit, policy, prior, gamma)], with [kk = bandit.k]. *)
Definition __init__ {P : Type} (kk : nat) (pol : P) (prior0 : R)
    (gamma0 : option R) : state P :=
  {| policy := pol; k := kk; prior := prior0; gamma := gamma0;
     value_estimates := np.full kk prior0;
     action_attempts := np.full kk 0%nat;
     t := 0; last_action := None |}.

Definition reset {P : Type} (self : state P) : state P :=
  {| policy := policy self; k := k self; prior := prior self;
     gamma := gamma self;
     value_estimates := np.fill (prior self) (value_estimates self);
     action_attempts := np.fill 0%nat (action_attempts self);
     t := 0; last_action := None |}.

Definition choose {P : Type} `{!Policy P} (self : state P)
    : result (state P * option nat) :=
  '(pol, action) ← policy_choose (policy self) self;
  Ok ({| policy := pol; k := k self; prior := prior self;
         gamma := gamma self;
         value_estimates := value_estimates self;
         action_attempts := action_attempts self;
         t := t self; last_action := action |}, action).

(** The step size [g] used for cell [i]: [gamma] when fixed, else
    [1 / action_attempts[i]] read after the increment. *)
Definition step_size (gamma0 : option R) (attempts : list nat) (i : nat) : R :=
  match gamma0 with
  | None => 1 / INR (attempts !!! i)
  | Some g => g
  end.

Definition observe {P : Type} (self : state P) (reward : R)
    : result (state P) :=
  attempts ← np.iupdate (fun _ c => S c) (last_action self)
               (action_attempts self);
  estimates ← np.iupdate
                (fun i q => q + step_size (gamma self) attempts i * (reward - q))
                (last_action self) (value_estimates self);
  Ok {| policy := policy self; k := k self; prior := prior self;
        gamma := gamma self;
        value_estimates := estimates;
        action_attempts := attempts;
        t := S (t self); last_action := last_action self |}.

(** The shape invariant of the data model. *)
Definition wf {P : Type} (self : state P) : Prop :=
  length (value_estimates self) = k self /\
  length (action_attempts self) = k self.

End Agent.

(** ** IEEE special values, where the source computes with them *)

Module npfloat.

Inductive t : Type :=
  | Fin (x : R)
  | PInf
  | NInf
  | NaN.

(** [x / y] on finite float64 operands, numpy's [true_divide]: a zero
    divisor gives an infinity of the dividend's sign, and [0 / 0] gives NaN
    (with a warning, not an exception).  The divisors of the source are
    attempt counts, so the zero is [+0.0]. *)
Definition true_divide (x y : R) : t :=
  if Req_dec_T y 0 then
    if Req_dec_T x 0 then NaN
    else if Rlt_dec 0 x then PInf else NInf
  else Fin (x / y).

Definition isnan (x : t) : bool :=
  match x with
  | NaN => true
  | _ => false
  end.

Definition is_integer (p : R) : bool :=
  if Req_dec_T p (IZR (Int_part p)) then true else false.

Definition is_odd_integer (p : R) : bool :=
  is_integer p && Z.odd (Int_part p).

(** [np.power(x, p)] for a finite exponent [p], as C's [pow]. *)
Definition power (x : t) (p : R) : t :=
  if Req_dec_T p 0 then Fin 1
  else
    match x with
    | NaN => NaN
    | PInf => if Rlt_dec 0 p then PInf else Fin 0
    | NInf =>
        if Rlt_dec 0 p then (if is_odd_integer p then NInf else PInf)
        else Fin 0
    | Fin b =>
        if Rlt_dec 0 b then Fin (Rpower b p)
        else if Req_dec_T b 0 then (if Rlt_dec 0 p then Fin 0 else PInf)
        else if is_integer p then Fin (powerRZ b (Int_part p))
        else NaN
    end.

(** [x + y]. *)
Definition add (x y : t) : t :=
  match x, y with
  | NaN, _ | _, NaN => NaN
  | PInf, NInf | NInf, PInf => NaN
  | PInf, _ | _, PInf => PInf
  | NInf, _ | _, NInf => NInf
  | Fin a, Fin b => Fin (a + b)
  end.

(** [x <= y]: false as soon as one side is NaN. *)
Definition le (x y : t) : bool :=
  match x, y with
  | NaN, _ | _, NaN => false
  | NInf, _ => true
  | _, PInf => true
  | Fin a, Fin b => if Rle_dec a b then true else false
  | _, _ => false
  end.

(** [x == y]: NaN equals nothing. *)
Definition eq (v x : t) : bool :=
  match x, v with
  | Fin a, Fin b => if Req_dec_T a b then true else false
  | PInf, PInf | NInf, NInf => true
  | _, _ => false
  end.

(** [np.argmax] on floats: the running maximum is replaced by an element
    that is not [<=] it, and the scan stops at a NaN; the first index of the
    maximum, or of the first NaN. *)
Fixpoint argmax_from (best : nat) (bv : t) (i : nat) (arr : list t) : nat :=
  match arr with
  | [] => best
  | x :: rest =>
      if isnan bv then best
      else if le x bv then argmax_from best bv (S i) rest
      else argmax_from i x (S i) rest
  end.

Definition argmax (arr : list t) : result nat :=
  match arr with
  | [] => Raise ValueError
  | x :: rest => Ok (argmax_from 0 x 1 rest)
  end.

End npfloat.

(** ** policy.py *)

Module Policy.

Inductive state : Type := mk.

Definition choose {P : Type} (self : state) (agent : Agent.state P)
    : result (state * option nat) :=
  Ok (self, Some 0%nat).

#[global] Instance policy : Agent.Policy state := choose.

End Policy.

Module EpsilonGreedyPolicy.

Record state : Type := mk { epsilon : R }.

(** [__init__] stores its argument; no statement of it can raise. *)
Definition __init__ (epsilon0 : R) : result state :=
  Ok {| epsilon := epsilon0 |}.

(** The tie-break shared by the greedy policies: the indices equal to the
    value at [action]; [action] itself when it is alone, else one of them
    drawn at random. *)
Definition break_ties (pick : nat) (action : nat) (check : list nat)
    : result nat :=
  if decide (length check = 1%nat) then Ok action
  else np.random_choice pick check.

(** [choose], on a one-dimensional array of estimates.  The two inputs are
    the draws of the global generator: [u] for [np.random.random()] and
    [pick] for the one [np.random.choice] the call makes. *)
Definition choose {P : Type} (u : R) (pick : nat) (self : state)
    (agent : Agent.state P) : result (state * option nat) :=
  let estimates := Agent.value_estimates agent in
  if Rlt_dec u (epsilon self) then
    a ← np.random_choice pick (seq 0 (length estimates));
    Ok (self, Some a)
  else
    action ← np.argmax estimates;
    v ← np.getitem estimates action;
    a ← break_ties pick action (np.where_ (np.eq_R v) estimates);
    Ok (self, Some a).

End EpsilonGreedyPolicy.

Module GreedyPolicy.

Definition __init__ : result EpsilonGreedyPolicy.state :=
  EpsilonGreedyPolicy.__init__ 0.

End GreedyPolicy.

Module RandomPolicy.

Definition __init__ : result EpsilonGreedyPolicy.state :=
  EpsilonGreedyPolicy.__init__ 1.

End RandomPolicy.

Module UCBPolicy.

Record state : Type := mk { c : R }.

(** [__init__] stores its argument; no statement of it can raise. *)
Definition __init__ (c0 : R) : result state :=
  Ok {| c := c0 |}.

(** Python's [1 / self.c] on a Python number. *)
Definition inv_c (self : state) : result R :=
  if Req_dec_T (c self) 0 then Raise ZeroDivisionError
  else Ok (1 / c self).

(** The first three statements of [choose]: the array [exploration] as it
    stands when it is added to the value estimates. *)
Definition exploration {P : Type} (self : state) (agent : Agent.state P)
    : result (list npfloat.t) :=
  let e1 := (fun a => npfloat.true_divide (ln (INR (Agent.t agent + 1))) (INR a))
              <$> Agent.action_attempts agent in
  let e2 := (fun x => if npfloat.isnan x then npfloat.Fin 0 else x) <$> e1 in
  p ← inv_c self;
  Ok ((fun x => npfloat.power x p) <$> e2).

(** [q = agent.value_estimates + exploration]. *)
Definition q {P : Type} (self : state) (agent : Agent.state P)
    : result (list npfloat.t) :=
  e ← exploration self agent;
  Ok (zip_with npfloat.add (npfloat.Fin <$> Agent.value_estimates agent) e).

(** [choose]; [pick] is the draw of the one [np.random.choice] the call may
    make. *)
Definition choose {P : Type} (pick : nat) (self : state)
    (agent : Agent.state P) : result (state * option nat) :=
  qs ← q self agent;
  action ← npfloat.argmax qs;
  v ← np.getitem qs action;
  a ← EpsilonGreedyPolicy.break_ties pick action
        (np.where_ (npfloat.eq v) qs);
  Ok (self, Some a).

End UCBPolicy.

Module FrequentistPolicy.

Record state : Type := mk {
  N : Z;
  n : Z;
  _last_choice : option nat;
  _optimal_choice : option nat
}.

Definition __init__ (n0 : Z) : state :=
  {| N := n0; n := 0; _last_choice := None; _optimal_choice := None |}.

Definition choose {P : Type} (self : state) (agent : Agent.state P)
    : result (state * option nat) :=
  if decide (n self < N self)%Z then
    let this_choice :=
      match _last_choice self with
      | None => 0%nat
      | Some lc =>
          if decide (lc <> np.max_shape (Agent.value_estimates agent))
          then (lc + 1)%nat else 0%nat
      end in
    Ok (self, Some this_choice)
  else if decide (n self = N self)%Z then
    best ← np.argmax (Agent.value_estimates agent);
    Ok ({| N := N self; n := n self; _last_choice := _last_choice self;
           _optimal_choice := Some best |}, Some best)
  else Ok (self, _optimal_choice self).

#[global] Instance policy : Agent.Policy state := choose.

End FrequentistPolicy.

(** ** agent.py: the agents that extend Agent *)

Module GradientAgent.

Record state (P : Type) : Type := mk {
  base : Agent.state P;
  alpha : R;
  baseline : bool;
  average_reward : R
}.
Arguments mk {P}.
Arguments base {P}.
Arguments alpha {P}.
Arguments baseline {P}.
Arguments average_reward {P}.

Definition __init__ {P : Type} (kk : nat) (pol : P) (prior0 alpha0 : R)
    (baseline0 : bool) : state P :=
  {| base := Agent.__init__ kk pol prior0 None;
     alpha := alpha0; baseline := baseline0; average_reward := 0 |}.

(** [np.exp(h) / np.sum(np.exp(h))]. *)
Definition softmax (h : list R) : list R :=
  let e := exp <$> h in (fun x => x / np.sum e) <$> e.

(** The preferences after the last four array statements of [observe], for
    the scaled error [d = alpha * (reward - average_reward)].
    With an integer [last_action], [ht] is a scalar copy: every cell loses
    [d * pi], then the chosen cell is overwritten with [ht].
    With [last_action = None], [ht] is a view of the whole array: [ht += ...]
    already writes through to every cell, the subtraction follows, and the
    final assignment copies the array onto itself. *)
Definition update_preferences (d : R) (idx : option nat) (h : list R)
    : result (list R) :=
  let pi := softmax h in
  match idx with
  | Some a =>
      h_a ← np.getitem h a;
      pi_a ← np.getitem pi a;
      let ht := h_a + d * (1 - pi_a) in
      Ok (<[a := ht]> (zip_with (fun v p => v - d * p) h pi))
  | None =>
      Ok (zip_with (fun v p => v + d * (1 - p) - d * p) h pi)
  end.

Definition observe {P : Type} (self : state P) (reward : R)
    : result (state P) :=
  let b := base self in
  attempts ← np.iupdate (fun _ c => S c) (Agent.last_action b)
               (Agent.action_attempts b);
  let average :=
    if baseline self then
      average_reward self
        + 1 / INR (np.sum_nat attempts) * (reward - average_reward self)
    else average_reward self in
  estimates ← update_preferences (alpha self * (reward - average))
                (Agent.last_action b) (Agent.value_estimates b);
  Ok {| base := {| Agent.policy := Agent.policy b; Agent.k := Agent.k b;
                   Agent.prior := Agent.prior b; Agent.gamma := Agent.gamma b;
                   Agent.value_estimates := estimates;
                   Agent.action_attempts := attempts;
                   Agent.t := S (Agent.t b);
                   Agent.last_action := Agent.last_action b |};
        alpha := alpha self; baseline := baseline self;
        average_reward := average |}.

Definition reset {P : Type} (self : state P) : state P :=
  {| base := Agent.reset (base self);
     alpha := alpha self; baseline := baseline self; average_reward := 0 |}.

Definition choose {P : Type} `{!Agent.Policy P} (self : state P)
    : result (state P * option nat) :=
  '(b, action) ← Agent.choose (base self);
  Ok ({| base := b; alpha := alpha self; baseline := baseline self;
         average_reward := average_reward self |}, action).

End GradientAgent.

Module BetaAgent.

(** The pymc3 distribution object is used by the source as the holder of the
    two posterior arrays [alpha] and [beta]; it is modelled as those arrays.
    Its [random()] draw is an input of [observe]. *)
Record state (P : Type) : Type := mk {
  base : Agent.state P;
  n : R;
  ts : bool;
  alpha : list R;
  beta : list R
}.
Arguments mk {P}.
Arguments base {P}.
Arguments n {P}.
Arguments ts {P}.
Arguments alpha {P}.
Arguments beta {P}.

(** [BetaAgent.__init__(bandit, policy, ts)], with [kk = bandit.k] and
    [nn = bandit.n]. *)
Definition __init__ {P : Type} (kk : nat) (nn : R) (pol : P) (ts0 : bool)
    : state P :=
  {| base := Agent.__init__ kk pol 0 None;
     n := nn; ts := ts0;
     alpha := np.full kk 1; beta := np.full kk 1 |}.

Definition reset {P : Type} (self : state P) : state P :=
  {| base := Agent.reset (base self);
     n := n self; ts := ts self;
     alpha := np.full (Agent.k (base self)) 1;
     beta := np.full (Agent.k (base self)) 1 |}.

Definition observe {P : Type} (sample : list R) (self : state P) (reward : R)
    : result (state P) :=
  let b := base self in
  attempts ← np.iupdate (fun _ c => S c) (Agent.last_action b)
               (Agent.action_attempts b);
  alpha' ← np.iupdate (fun _ a => a + reward) (Agent.last_action b)
             (alpha self);
  beta' ← np.iupdate (fun _ a => a + (n self - reward)) (Agent.last_action b)
            (beta self);
  let estimates :=
    if ts self then sample
    else zip_with (fun a b => a / (a + b)) alpha' beta' in
  Ok {| base := {| Agent.policy := Agent.policy b; Agent.k := Agent.k b;
                   Agent.prior := Agent.prior b; Agent.gamma := Agent.gamma b;
                   Agent.value_estimates := estimates;
                   Agent.action_attempts := attempts;
                   Agent.t := S (Agent.t b);
                   Agent.last_action := Agent.last_action b |};
        n := n self; ts := ts self; alpha := alpha'; beta := beta' |}.

Definition choose {P : Type} `{!Agent.Policy P} (self : state P)
    : result (state P * option nat) :=
  '(b, action) ← Agent.choose (base self);
  Ok ({| base := b; n := n self; ts := ts self;
         alpha := alpha self; beta := beta self |}, action).

End BetaAgent.

Module FrequentistAgent.

Record state (P : Type) : Type := mk {
  base : Agent.state P;
  n : Z;
  num_arm : nat;
  _last_choice : nat;
  _optimal_choice : option nat
}.
Arguments mk {P}.
Arguments base {P}.
Arguments n {P}.
Arguments num_arm {P}.
Arguments _last_choice {P}.
Arguments _optimal_choice {P}.

Definition __init__ {P : Type} (kk : nat) (pol : P) : state P :=
  let b := Agent.__init__ kk pol 0 None in
  {| base := b; n := -1;
     num_arm := np.max_shape (Agent.value_estimates b);
     _last_choice := 0; _optimal_choice := None |}.

Definition rand_choice {P : Type} (self : state P) : state P * nat :=
  let n' := (n self + 1)%Z in
  let last :=
    if decide (n' > 0)%Z then
      if decide (_last_choice self <> num_arm self)
      then (_last_choice self + 1)%nat else 0%nat
    else _last_choice self in
  ({| base := base self; n := n'; num_arm := num_arm self;
      _last_choice := last; _optimal_choice := _optimal_choice self |}, last).

Definition optimize {P : Type} (self : state P) : result (state P) :=
  best ← np.argmax (Agent.value_estimates (base self));
  Ok {| base := base self; n := n self; num_arm := num_arm self;
        _last_choice := _last_choice self; _optimal_choice := Some best |}.

Definition optimal_choice {P : Type} (self : state P) : option nat :=
  _optimal_choice self.

(** The override does not call the base [reset]. *)
Definition reset {P : Type} (self : state P) : state P :=
  {| base := base self; n := -1; num_arm := num_arm self;
     _last_choice := 0; _optimal_choice := None |}.

(** [choose] and [observe] are inherited from Agent. *)
Definition with_base {P : Type} (self : state P) (b : Agent.state P) : state P :=
  {| base := b; n := n self; num_arm := num_arm self;
     _last_choice := _last_choice self;
     _optimal_choice := _optimal_choice self |}.

Definition choose {P : Type} `{!Agent.Policy P} (self : state P)
    : result (state P * option nat) :=
  '(b, action) ← Agent.choose (base self);
  Ok (with_base self b, action).

Definition observe {P : Type} (self : state P) (reward : R)
    : result (state P) :=
  b ← Agent.observe (base self) reward;
  Ok (with_base self b).

End FrequentistAgent.

(** ** policy.py: SoftmaxPolicy *)

Module SoftmaxPolicy.

Inductive state : Type := mk.

#[global] Instance Rlt_decision (x y : R) : Decision (x < y) := Rlt_dec x y.

(** [choose]; [s] is the draw of [np.random.random()].  The index of the
    first cumulative probability above [s]; IndexError when there is
    none. *)
Definition choose {P : Type} (s : R) (self : state) (agent : Agent.state P)
    : result (state * option nat) :=
  let pi := GradientAgent.softmax (Agent.value_estimates agent) in
  let cdf := np.cumsum pi in
  match list_find (fun c => s < c) cdf with
  | Some (i, _) => Ok (self, Some i)
  | None => Raise IndexError
  end.

End SoftmaxPolicy.

(** ** Drivers *)

Module Environment.

Section Loop.
Context {A X : Type}.
Variable choose : A -> result (A * option nat).
Variable observe : A -> X -> result A.

(** Modelled from the spec: the step of the driver loop (environment.py is
    not among the sources): [agent.choose()], then [agent.observe(reward)]
    with the reward obtained for the chosen arm. *)
Definition step (agent : A) (reward : X) : result (A * option nat) :=
  '(agent1, action) ← choose agent;
  agent2 ← observe agent1 reward;
  Ok (agent2, action).

(** Modelled from the spec: the driver loop over the rewards of successive
    steps, returning the final agent and the arms chosen. *)
Fixpoint run (agent : A) (rewards : list X)
    : result (A * list (option nat)) :=
  match rewards with
  | [] => Ok (agent, [])
  | reward :: rest =>
      '(agent1, action) ← step agent reward;
      '(agent2, actions) ← run agent1 rest;
      Ok (agent2, action :: actions)
  end.

End Loop.

End Environment.

(** [m] successive calls of [FrequentistAgent.rand_choice]. *)
Fixpoint rand_choices {P : Type} (m : nat) (self : FrequentistAgent.state P)
    : FrequentistAgent.state P * list nat :=
  match m with
  | O => (self, [])
  | S m' =>
      let '(self1, a) := FrequentistAgent.rand_choice self in
      let '(self2, l) := rand_choices m' self1 in
      (self2, a :: l)
  end.

(** The loop for a BetaAgent: each step carries the posterior draw that
    [observe] would make, and the reward. *)
Definition beta_observe {P : Type} (self : BetaAgent.state P)
    (x : list R * R) : result (BetaAgent.state P) :=
  BetaAgent.observe x.1 self x.2.





(** The loop for a GradientAgent. *)
Definition gradient_run {P : Type} `{!Agent.Policy P}
    (self : GradientAgent.state P) (rewards : list R)
    : result (GradientAgent.state P * list (option nat)) :=
  Environment.run GradientAgent.choose GradientAgent.observe self rewards.

(** Index [r] holds the maximum of [arr], and no earlier index does. *)
Definition first_max (arr : list R) (r : nat) : Prop :=
  exists v,
    arr !! r = Some v /\
    (forall j x, arr !! j = Some x -> x <= v) /\
    (forall j x, (j < r)%nat -> arr !! j = Some x -> x < v).


(** The loop for a BetaAgent. *)
Definition beta_run {P : Type} `{!Agent.Policy P}
    (self : BetaAgent.state P) (observations : list (list R * R))
    : result (BetaAgent.state P * list (option nat)) :=
  Environment.run BetaAgent.choose beta_observe self observations.

(** What a BetaAgent over [kk] arms with [nn] trials per pull keeps: the
    shapes, the construction-time fields, and for every arm
    [alpha + beta = 2 + nn * attempts]. *)
Definition beta_inv {P : Type} (kk : nat) (nn : R) (ts0 : bool)
    (self : BetaAgent.state P) : Prop :=
  Agent.wf (BetaAgent.base self) /\
  Agent.k (BetaAgent.base self) = kk /\
  Agent.prior (BetaAgent.base self) = 0 /\
  Agent.gamma (BetaAgent.base self) = None /\
  BetaAgent.n self = nn /\ BetaAgent.ts self = ts0 /\
  length (BetaAgent.alpha self) = kk /\
  length (BetaAgent.beta self) = kk /\
  forall i x y c,
    BetaAgent.alpha self !! i = Some x ->
    BetaAgent.beta self !! i = Some y ->
    Agent.action_attempts (BetaAgent.base self) !! i = Some c ->
    x + y = 2 + nn * INR c.

(** Both posterior parameters of every arm are at least 1. *)
Definition beta_proper {P : Type} (self : BetaAgent.state P) : Prop :=
  Forall (fun x => 1 <= x) (BetaAgent.alpha self) /\
  Forall (fun x => 1 <= x) (BetaAgent.beta self).


(** * Properties *)

(** ** In-place updates *)

Lemma bind_Ok {A B : Type} (m : result A) (f : A -> result B) (b : B) :
  m ≫= f = Ok b -> exists a, m = Ok a /\ f a = Ok b.
Proof. destruct m as [a|e]; [eauto|discriminate]. Qed.

Lemma bind_ret {A B : Type} (a : A) (f : A -> result B) : Ok a ≫= f = f a.
Proof. reflexivity. Qed.

Lemma iupdate_Some {A : Type} (f : nat -> A -> A) (i : nat) (arr : list A) :
  (i < length arr)%nat ->
  np.iupdate f (Some i) arr = Ok (alter (f i) i arr).
Proof. intros Hi. unfold np.iupdate. now rewrite decide_True. Qed.

Lemma iupdate_out_of_range {A : Type} (f : nat -> A -> A) (i : nat)
    (arr : list A) :
  (length arr <= i)%nat -> np.iupdate f (Some i) arr = Raise IndexError.
Proof. intros Hi. unfold np.iupdate. rewrite decide_False; [done|lia]. Qed.

Lemma iupdate_length {A : Type} (f : nat -> A -> A) (idx : option nat)
    (arr arr' : list A) :
  np.iupdate f idx arr = Ok arr' -> length arr' = length arr.
Proof.
  destruct idx as [i|]; cbn.
  - case_decide; [|discriminate]. intros [= <-]. apply length_alter.
  - intros [= <-]. apply length_imap.
Qed.

(** An update through an integer index leaves every other cell alone. *)
Lemma iupdate_frame {A : Type} (f : nat -> A -> A) (i j : nat)
    (arr arr' : list A) :
  np.iupdate f (Some i) arr = Ok arr' -> i <> j -> arr' !! j = arr !! j.
Proof.
  cbn. case_decide; [|discriminate]. intros [= <-] Hij.
  now apply list_lookup_alter_ne.
Qed.

Lemma iupdate_hit {A : Type} (f : nat -> A -> A) (i : nat)
    (arr arr' : list A) :
  np.iupdate f (Some i) arr = Ok arr' -> arr' !! i = f i <$> arr !! i.
Proof.
  cbn. case_decide; [|discriminate]. intros [= <-].
  apply list_lookup_alter_eq.
Qed.

(** ** The base Agent *)

Section AgentFacts.
Context {P : Type}.
Implicit Types self : Agent.state P.

Lemma observe_inv self reward self' :
  Agent.observe self reward = Ok self' ->
  exists attempts estimates,
    np.iupdate (fun _ c => S c) (Agent.last_action self)
      (Agent.action_attempts self) = Ok attempts /\
    np.iupdate
      (fun i q => q + Agent.step_size (Agent.gamma self) attempts i * (reward - q))
      (Agent.last_action self) (Agent.value_estimates self) = Ok estimates /\
    self' = Agent.mk (Agent.policy self) (Agent.k self) (Agent.prior self)
              (Agent.gamma self) estimates attempts (S (Agent.t self))
              (Agent.last_action self).
Proof.
  unfold Agent.observe. intros H.
  apply bind_Ok in H as (attempts & Ha & H).
  apply bind_Ok in H as (estimates & He & H).
  injection H as <-. eauto.
Qed.

(** [observe] returns whenever the recorded action is an arm. *)
Lemma observe_total self reward (a : nat) :
  Agent.wf self -> Agent.last_action self = Some a -> (a < Agent.k self)%nat ->
  exists self', Agent.observe self reward = Ok self'.
Proof.
  intros [Hv Ha] Hla Hlt. unfold Agent.observe.
  rewrite Hla, iupdate_Some, bind_ret by lia.
  rewrite iupdate_Some, bind_ret by lia. eauto.
Qed.

Lemma observe_wf self reward self' :
  Agent.wf self -> Agent.observe self reward = Ok self' -> Agent.wf self'.
Proof.
  intros [Hv Ha] H. apply observe_inv in H as (attempts & estimates & H1 & H2 & ->).
  apply iupdate_length in H1, H2. split; cbn; congruence.
Qed.

(** An index that is not an arm makes the first statement raise. *)
Lemma observe_out_of_range self reward (a : nat) :
  Agent.last_action self = Some a ->
  (length (Agent.action_attempts self) <= a)%nat ->
  Agent.observe self reward = Raise IndexError.
Proof.
  intros Hla Hlen. unfold Agent.observe.
  now rewrite Hla, iupdate_out_of_range.
Qed.

(** Once a reward has been observed the step counter is positive. *)
Lemma observe_t_positive self reward self' :
  Agent.observe self reward = Ok self' -> (1 <= Agent.t self')%nat.
Proof.
  intros H. apply observe_inv in H as (attempts & estimates & _ & _ & ->).
  cbn. lia.
Qed.

Lemma choose_inv `{!Agent.Policy P} self self' action :
  Agent.choose self = Ok (self', action) ->
  exists pol,
    Agent.policy_choose (Agent.policy self) self = Ok (pol, action) /\
    self' = Agent.mk pol (Agent.k self) (Agent.prior self) (Agent.gamma self)
              (Agent.value_estimates self) (Agent.action_attempts self)
              (Agent.t self) action.
Proof.
  unfold Agent.choose. intros Hch.
  apply bind_Ok in Hch as ([pol act] & Hc & Hr). cbn in Hr.
  injection Hr as <- <-. eauto.
Qed.

Lemma choose_wf `{!Agent.Policy P} self self' action :
  Agent.wf self -> Agent.choose self = Ok (self', action) -> Agent.wf self'.
Proof. intros Hwf Hch. apply choose_inv in Hch as (pol & _ & ->). exact Hwf. Qed.

Lemma init_wf (kk : nat) (pol : P) (prior0 : R) (gamma0 : option R) :
  Agent.wf (Agent.__init__ kk pol prior0 gamma0).
Proof. split; cbn; apply length_replicate. Qed.

Lemma fill_replicate {A : Type} (x : A) (arr : list A) :
  np.fill x arr = replicate (length arr) x.
Proof.
  unfold np.fill. induction arr as [|y arr IH]; [done|]. cbn. now f_equal.
Qed.

(** [Agent.reset] gives back the agent as constructed. *)
Lemma Agent_reset_init self :
  Agent.wf self ->
  Agent.reset self
    = Agent.__init__ (Agent.k self) (Agent.policy self) (Agent.prior self)
        (Agent.gamma self).
Proof.
  intros [Hv Ha]. unfold Agent.reset, Agent.__init__, np.full.
  now rewrite !fill_replicate, Hv, Ha.
Qed.

End AgentFacts.

(** ** FrequentistAgent.rand_choice *)

Section RandChoice.
Context {P : Type}.
Implicit Types self : FrequentistAgent.state P.

Lemma rand_choices_S m self :
  rand_choices (S m) self =
    ((rand_choices m (FrequentistAgent.rand_choice self).1).1,
     (FrequentistAgent.rand_choice self).2
       :: (rand_choices m (FrequentistAgent.rand_choice self).1).2).
Proof.
  cbn [rand_choices].
  destruct (FrequentistAgent.rand_choice self) as [self1 a].
  cbn [fst snd]. now destruct (rand_choices m self1).
Qed.

(** One call in the exploration cycle: the counter is already non-negative,
    so the stored arm advances, wrapping only after it has reached
    [num_arm] itself. *)
Lemma rand_choice_advance self :
  (0 <= FrequentistAgent.n self)%Z ->
  (FrequentistAgent._last_choice self <= FrequentistAgent.num_arm self)%nat ->
  (FrequentistAgent.rand_choice self).2 =
    (S (FrequentistAgent._last_choice self)
       mod S (FrequentistAgent.num_arm self))%nat.
Proof.
  intros Hn Hle. unfold FrequentistAgent.rand_choice. cbn -[Nat.modulo].
  destruct (decide (FrequentistAgent.n self + 1 > 0)%Z) as [_|Hneg]; [|lia].
  destruct (decide (FrequentistAgent._last_choice self
                    <> FrequentistAgent.num_arm self)) as [Hne|Heq].
  - rewrite Nat.mod_small by lia. lia.
  - apply dec_stable in Heq. rewrite Heq, Nat.Div0.mod_same. done.
Qed.

(** What a call leaves in the object. *)
Lemma rand_choice_fields self :
  let self' := (FrequentistAgent.rand_choice self).1 in
  FrequentistAgent._last_choice self' = (FrequentistAgent.rand_choice self).2 /\
  FrequentistAgent.num_arm self' = FrequentistAgent.num_arm self /\
  FrequentistAgent.n self' = (FrequentistAgent.n self + 1)%Z /\
  FrequentistAgent.base self' = FrequentistAgent.base self.
Proof. done. Qed.

(** From a state inside the cycle, [m] calls return the successors of the
    stored arm modulo [num_arm + 1]. *)
Lemma rand_choices_cycle m : forall self,
  (0 <= FrequentistAgent.n self)%Z ->
  (FrequentistAgent._last_choice self <= FrequentistAgent.num_arm self)%nat ->
  (rand_choices m self).2 =
    (fun j => ((FrequentistAgent._last_choice self + 1 + j)
                 mod S (FrequentistAgent.num_arm self))%nat) <$> seq 0 m.
Proof.
  induction m as [|m IH]; intros self Hn Hle; [done|].
  rewrite rand_choices_S.
  destruct (rand_choice_fields self) as (Hlast & Hnum & Hn1 & _).
  pose proof (rand_choice_advance self Hn Hle) as Ha.
  pose proof (Nat.mod_upper_bound (S (FrequentistAgent._last_choice self))
                (S (FrequentistAgent.num_arm self))) as Hub.
  cbn [snd seq fmap list_fmap]. rewrite IH by lia.
  rewrite Hlast, Hnum, Ha. f_equal; [f_equal; lia|].
  rewrite <- fmap_S_seq, <- list_fmap_compose.
  apply list_fmap_ext. intros _ j _. cbn -[Nat.modulo].
  rewrite <- Nat.add_assoc, Nat.Div0.add_mod_idemp_l.
  f_equal. lia.
Qed.

(** From a fresh agent, call number [j] (counting from 0) returns
    [j mod (k + 1)]. *)
Lemma rand_choices_fresh (kk : nat) (pol : P) (m : nat) :
  (rand_choices m (FrequentistAgent.__init__ kk pol)).2 =
    (fun j => (j mod S kk)%nat) <$> seq 0 m.
Proof.
  destruct m as [|m]; [done|].
  rewrite rand_choices_S.
  cbn [snd seq fmap list_fmap]. f_equal; [by rewrite Nat.Div0.mod_0_l|].
  rewrite rand_choices_cycle.
  - rewrite <- fmap_S_seq, <- list_fmap_compose.
    apply list_fmap_ext. intros _ j _. cbn -[Nat.modulo].
    unfold np.full, np.max_shape. rewrite length_replicate. done.
  - cbn. lia.
  - cbn. destruct (decide (-1 + 1 > 0)%Z); lia.
Qed.

End RandChoice.

(** C9 (code defect).  On a fresh FrequentistAgent over [kk] arms, call
    number [kk + 1] of [rand_choice] returns the index [kk], which is not an
    arm: the wrap-around test compares the stored arm with [num_arm] instead
    of [num_arm - 1], so the cycle has [kk + 1] positions. *)
Theorem C9_rand_choice_leaves_range {P : Type} (kk : nat) (pol : P) :
  exists a : nat,
    (rand_choices (S kk) (FrequentistAgent.__init__ kk pol)).2 !! kk = Some a /\
    a = kk /\ ~ (a < kk)%nat.
Proof.
  exists kk. split; [|lia].
  rewrite rand_choices_fresh, list_lookup_fmap, lookup_seq_lt by lia.
  cbn -[Nat.modulo]. rewrite Nat.mod_small by lia. done.
Qed.

(** The first four calls on two arms: 0, 1, 2, 0. *)
Example rand_choice_two_arms :
  (rand_choices 4 (FrequentistAgent.__init__ 2 Policy.mk)).2
    = [0; 1; 2; 0]%nat.
Proof. reflexivity. Qed.

(** ** FrequentistPolicy.choose *)

Section FrequentistPolicyChoose.
Implicit Types agent : Agent.state FrequentistPolicy.state.

(** A call on the policy as constructed, with a positive horizon, takes the
    exploration branch with no last choice recorded: it returns 0 and
    assigns no field. *)
Lemma FrequentistPolicy_choose_init (N0 : Z) agent :
  (1 <= N0)%Z ->
  FrequentistPolicy.choose (FrequentistPolicy.__init__ N0) agent
    = Ok (FrequentistPolicy.__init__ N0, Some 0%nat).
Proof.
  intros HN. unfold FrequentistPolicy.choose. cbn.
  destruct (decide (0 < N0)%Z); [done|lia].
Qed.

Lemma Agent_choose_frequentist_init (N0 : Z) agent :
  (1 <= N0)%Z ->
  Agent.policy agent = FrequentistPolicy.__init__ N0 ->
  exists agent',
    Agent.choose agent = Ok (agent', Some 0%nat) /\
    Agent.policy agent' = FrequentistPolicy.__init__ N0.
Proof.
  intros HN Hpol. unfold Agent.choose, Agent.policy_choose, FrequentistPolicy.policy.
  rewrite Hpol, FrequentistPolicy_choose_init by done. cbn. eauto.
Qed.

End FrequentistPolicyChoose.

(** ** The driver loop *)

Section RunFacts.
Context {A X : Type}.
Variable choose : A -> result (A * option nat).
Variable observe : A -> X -> result A.

Lemma run_cons_inv (agent agent' : A) (reward : X) (rest : list X)
    (actions : list (option nat)) :
  Environment.run choose observe agent (reward :: rest) = Ok (agent', actions) ->
  exists agent1 action agent2 actions',
    choose agent = Ok (agent1, action) /\
    observe agent1 reward = Ok agent2 /\
    Environment.run choose observe agent2 rest = Ok (agent', actions') /\
    actions = action :: actions'.
Proof.
  cbn [Environment.run]. unfold Environment.step. intros Hrun.
  apply bind_Ok in Hrun as ([agent2 action] & Hstep & Hrun).
  apply bind_Ok in Hstep as ([agent1 action1] & Hc & Hstep).
  apply bind_Ok in Hstep as (agent2' & Ho & Hstep).
  injection Hstep as <- <-.
  apply bind_Ok in Hrun as ([agent3 actions'] & Hrest & Hrun).
  injection Hrun as <- <-.
  eauto 10.
Qed.

Lemma run_length (rewards : list X) : forall agent agent' actions,
  Environment.run choose observe agent rewards = Ok (agent', actions) ->
  length actions = length rewards.
Proof.
  induction rewards as [|reward rest IH]; intros agent agent' actions Hrun.
  - injection Hrun as <- <-. done.
  - apply run_cons_inv in Hrun
      as (agent1 & action & agent2 & actions' & _ & _ & Hrest & ->).
    cbn. f_equal. eauto.
Qed.

End RunFacts.

(** ** Agent.observe *)

(** C10.  After a [choose] that selected arm [a], [observe] changes the
    estimate and the attempt count of arm [a] and the step counter only:
    every other arm keeps its estimate and its count, and [k], [prior],
    [gamma], [last_action] (and the bound policy) are unchanged. *)
Theorem C10_observe_frame {P : Type} `{!Agent.Policy P}
    (self self1 : Agent.state P) (a : nat) (reward : R) :
  Agent.wf self ->
  Agent.choose self = Ok (self1, Some a) ->
  (a < Agent.k self)%nat ->
  exists self2,
    Agent.observe self1 reward = Ok self2 /\
    (forall i, i <> a ->
       Agent.value_estimates self2 !! i = Agent.value_estimates self1 !! i /\
       Agent.action_attempts self2 !! i = Agent.action_attempts self1 !! i) /\
    length (Agent.value_estimates self2) = length (Agent.value_estimates self1) /\
    length (Agent.action_attempts self2) = length (Agent.action_attempts self1) /\
    Agent.action_attempts self2 !! a = S <$> Agent.action_attempts self1 !! a /\
    Agent.t self2 = S (Agent.t self1) /\
    Agent.k self2 = Agent.k self1 /\
    Agent.prior self2 = Agent.prior self1 /\
    Agent.gamma self2 = Agent.gamma self1 /\
    Agent.last_action self2 = Agent.last_action self1 /\
    Agent.policy self2 = Agent.policy self1.
Proof.
  intros Hwf Hch Ha.
  pose proof (choose_wf _ _ _ Hwf Hch) as Hwf1.
  apply choose_inv in Hch as (pol & _ & Hself1).
  assert (Agent.last_action self1 = Some a) as Hla by (subst self1; done).
  assert (Agent.k self1 = Agent.k self) as Hk by (subst self1; done).
  destruct (observe_total self1 reward a Hwf1 Hla) as [self2 Hobs]; [lia|].
  exists self2. split; [done|].
  apply observe_inv in Hobs as (attempts & estimates & H1 & H2 & ->).
  rewrite Hla in H1, H2. cbn.
  repeat split; try done.
  - now apply (iupdate_frame _ a i _ _ H2).
  - now apply (iupdate_frame _ a i _ _ H1).
  - now apply iupdate_length in H2.
  - now apply iupdate_length in H1.
  - now apply iupdate_hit in H1.
Qed.

Lemma C10_observe_frame_witness :
  exists self2,
    Agent.observe (Agent.mk Policy.mk 2 0 None [0; 0] [0; 0]%nat 0 (Some 0%nat)) 5
      = Ok self2 /\
    (forall i, i <> 0%nat ->
       Agent.value_estimates self2 !! i = [0; 0] !! i /\
       Agent.action_attempts self2 !! i = [0; 0]%nat !! i) /\
    length (Agent.value_estimates self2) = 2%nat /\
    length (Agent.action_attempts self2) = 2%nat /\
    Agent.action_attempts self2 !! 0%nat = Some 1%nat /\
    Agent.t self2 = 1%nat /\
    Agent.k self2 = 2%nat /\
    Agent.prior self2 = 0 /\
    Agent.gamma self2 = None /\
    Agent.last_action self2 = Some 0%nat /\
    Agent.policy self2 = Policy.mk.
Proof.
  apply (C10_observe_frame (Agent.__init__ 2 Policy.mk 0 None)).
  - apply init_wf.
  - reflexivity.
  - cbn. lia.
Defined.

(** With no action recorded, [observe] indexes by [None]: both in-place
    statements then address the whole array and nothing raises. *)
Lemma observe_no_action {P : Type} (self : Agent.state P) (reward : R) :
  Agent.last_action self = None ->
  Agent.observe self reward =
    Ok (Agent.mk (Agent.policy self) (Agent.k self) (Agent.prior self)
          (Agent.gamma self)
          (imap (fun i q =>
                   q + Agent.step_size (Agent.gamma self)
                         (S <$> Agent.action_attempts self) i * (reward - q))
             (Agent.value_estimates self))
          (S <$> Agent.action_attempts self)
          (S (Agent.t self)) None).
Proof.
  intros Hla. unfold Agent.observe. rewrite Hla. cbn [np.iupdate].
  rewrite bind_ret, bind_ret.
  assert (imap (fun _ c => S c) (Agent.action_attempts self)
          = S <$> Agent.action_attempts self) as -> by apply (imap_const S).
  done.
Qed.



Section SampleAverage.
Context {P : Type} `{!Agent.Policy P}.
Variable reward : R.
Implicit Types self : Agent.state P.
Implicit Types D : nat -> Prop.



End SampleAverage.




(** ** observe before any choose *)




(** ** FrequentistPolicy in the loop *)

(** C1 (code defect).  [choose] never increments the counter [n] and never
    records [_last_choice], so a FrequentistPolicy with horizon [N0 >= 1]
    stays in its initial state: every call returns arm 0, however many
    steps are made and whatever the estimates have become.  The round-robin
    order and the later freeze of the argmax are never reached. *)
Theorem C1_frequentist_policy_never_advances (N0 : Z) (rewards : list R) :
  forall agent : Agent.state FrequentistPolicy.state,
  (1 <= N0)%Z ->
  Agent.wf agent -> (1 <= Agent.k agent)%nat ->
  Agent.policy agent = FrequentistPolicy.__init__ N0 ->
  exists agent',
    Environment.run Agent.choose Agent.observe agent rewards
      = Ok (agent', replicate (length rewards) (Some 0%nat)) /\
    Agent.policy agent' = FrequentistPolicy.__init__ N0.
Proof.
  induction rewards as [|reward rest IH]; intros agent HN Hwf Hk Hpol.
  - exists agent. done.
  - destruct (Agent_choose_frequentist_init N0 agent HN Hpol)
      as (agent1 & Hc & Hpol1).
    pose proof (choose_wf _ _ _ Hwf Hc) as Hwf1.
    pose proof Hc as Hc'. apply choose_inv in Hc' as (pol & _ & Hagent1).
    assert (Agent.k agent1 = Agent.k agent) as Hk1 by (subst agent1; done).
    assert (Agent.last_action agent1 = Some 0%nat) as Hla
      by (subst agent1; done).
    destruct (observe_total agent1 reward 0 Hwf1 Hla) as [agent2 Ho]; [lia|].
    pose proof (observe_wf _ _ _ Hwf1 Ho) as Hwf2.
    pose proof Ho as Ho'.
    apply observe_inv in Ho' as (attempts & estimates & _ & _ & Hagent2).
    destruct (IH agent2 HN Hwf2) as (agent3 & Hrun & Hpol3).
    { subst agent2. cbn. lia. }
    { subst agent2. done. }
    exists agent3. split; [|done].
    cbn [Environment.run]. unfold Environment.step.
    rewrite Hc, bind_ret. cbn beta iota. rewrite Ho, !bind_ret.
    cbn beta iota. rewrite Hrun. done.
Qed.

(** Horizon 3 over 4 arms, with rewards that change the estimates: the
    first four choices are 0, 0, 0, 0. *)
Lemma C1_frequentist_policy_never_advances_witness :
  exists agent',
    Environment.run Agent.choose Agent.observe
      (Agent.__init__ 4 (FrequentistPolicy.__init__ 3) 0 None) [1; 2; 3; 4]
      = Ok (agent', [Some 0; Some 0; Some 0; Some 0]%nat) /\
    Agent.policy agent' = FrequentistPolicy.__init__ 3.
Proof.
  apply (C1_frequentist_policy_never_advances 3 [1; 2; 3; 4]
           (Agent.__init__ 4 (FrequentistPolicy.__init__ 3) 0 None)).
  - lia.
  - apply init_wf.
  - cbn. lia.
  - reflexivity.
Defined.

(** ** reset *)

Section ResetFacts.
Context {P : Type}.

Lemma GradientAgent_reset_init (self : GradientAgent.state P) :
  Agent.wf (GradientAgent.base self) ->
  Agent.gamma (GradientAgent.base self) = None ->
  GradientAgent.reset self
    = GradientAgent.__init__ (Agent.k (GradientAgent.base self))
        (Agent.policy (GradientAgent.base self))
        (Agent.prior (GradientAgent.base self))
        (GradientAgent.alpha self) (GradientAgent.baseline self).
Proof.
  intros Hwf Hg. unfold GradientAgent.reset, GradientAgent.__init__.
  now rewrite Agent_reset_init, Hg.
Qed.

Lemma BetaAgent_reset_init (self : BetaAgent.state P) :
  Agent.wf (BetaAgent.base self) ->
  Agent.gamma (BetaAgent.base self) = None ->
  Agent.prior (BetaAgent.base self) = 0 ->
  BetaAgent.reset self
    = BetaAgent.__init__ (Agent.k (BetaAgent.base self)) (BetaAgent.n self)
        (Agent.policy (BetaAgent.base self)) (BetaAgent.ts self).
Proof.
  intros Hwf Hg Hp. unfold BetaAgent.reset, BetaAgent.__init__.
  now rewrite Agent_reset_init, Hg, Hp.
Qed.

(** The override in FrequentistAgent assigns its own three fields and does
    not touch the inherited state. *)
Lemma FrequentistAgent_reset_base (self : FrequentistAgent.state P) :
  FrequentistAgent.base (FrequentistAgent.reset self)
    = FrequentistAgent.base self.
Proof. reflexivity. Qed.

End ResetFacts.

(** C4 (code defect).  FrequentistAgent.reset does not call the base reset,
    unlike the overrides of GradientAgent and BetaAgent: after one
    choose/observe step on two arms, [reset] leaves the estimate, the
    attempt count, [t] and [last_action] of that step in place, so the
    state differs from a newly constructed agent. *)
Theorem C4_frequentist_reset_keeps_learned_state :
  let fresh := FrequentistAgent.__init__ 2 Policy.mk in
  exists s1 s2,
    FrequentistAgent.choose fresh = Ok (s1, Some 0%nat) /\
    FrequentistAgent.observe s1 1 = Ok s2 /\
    FrequentistAgent.reset s2 <> fresh /\
    Agent.value_estimates (FrequentistAgent.base (FrequentistAgent.reset s2))
      = [1; 0] /\
    Agent.action_attempts (FrequentistAgent.base (FrequentistAgent.reset s2))
      = [1; 0]%nat /\
    Agent.t (FrequentistAgent.base (FrequentistAgent.reset s2)) = 1%nat /\
    Agent.last_action (FrequentistAgent.base (FrequentistAgent.reset s2))
      = Some 0%nat.
Proof.
  intros fresh. eexists _, _.
  split; [reflexivity|]. split; [reflexivity|].
  split; [|split; [|done]].
  - intros Heq.
    apply (f_equal (fun s => Agent.t (FrequentistAgent.base s))) in Heq.
    discriminate.
  - cbn. f_equal. field.
Qed.

(** ** BetaAgent.observe *)

Section BetaFacts.
Context {P : Type}.
Implicit Types self : BetaAgent.state P.

Lemma beta_observe_inv (sample : list R) self (reward : R) self' :
  BetaAgent.observe sample self reward = Ok self' ->
  exists attempts,
    np.iupdate (fun _ c => S c) (Agent.last_action (BetaAgent.base self))
      (Agent.action_attempts (BetaAgent.base self)) = Ok attempts /\
    np.iupdate (fun _ x => x + reward)
      (Agent.last_action (BetaAgent.base self)) (BetaAgent.alpha self)
      = Ok (BetaAgent.alpha self') /\
    np.iupdate (fun _ x => x + (BetaAgent.n self - reward))
      (Agent.last_action (BetaAgent.base self)) (BetaAgent.beta self)
      = Ok (BetaAgent.beta self') /\
    BetaAgent.n self' = BetaAgent.n self /\
    Agent.last_action (BetaAgent.base self')
      = Agent.last_action (BetaAgent.base self).
Proof.
  unfold BetaAgent.observe. cbv zeta. intros H.
  apply bind_Ok in H as (attempts & Ha & H).
  apply bind_Ok in H as (alpha' & Hal & H).
  apply bind_Ok in H as (beta' & Hbe & H).
  injection H as <-. cbn. eauto 10.
Qed.

(** One observation on arm [a]: [alpha[a] += reward] and
    [beta[a] += n - reward]. *)
Lemma beta_observe_arm (sample : list R) self (a : nat) (reward x y : R) :
  Agent.last_action (BetaAgent.base self) = Some a ->
  (a < length (Agent.action_attempts (BetaAgent.base self)))%nat ->
  BetaAgent.alpha self !! a = Some x ->
  BetaAgent.beta self !! a = Some y ->
  exists self',
    BetaAgent.observe sample self reward = Ok self' /\
    BetaAgent.alpha self' !! a = Some (x + reward) /\
    BetaAgent.beta self' !! a = Some (y + (BetaAgent.n self - reward)).
Proof.
  intros Hla Hlen Hx Hy.
  pose proof (lookup_lt_Some _ _ _ Hx) as Hlx.
  pose proof (lookup_lt_Some _ _ _ Hy) as Hly.
  unfold BetaAgent.observe. cbv zeta. rewrite Hla.
  rewrite !iupdate_Some by done. rewrite !bind_ret.
  eexists. split; [done|]. cbn.
  now rewrite !list_lookup_alter_eq, Hx, Hy.
Qed.

Lemma beta_choose_inv `{!Agent.Policy P} self self' action :
  BetaAgent.choose self = Ok (self', action) ->
  Agent.last_action (BetaAgent.base self') = action /\
  BetaAgent.alpha self' = BetaAgent.alpha self /\
  BetaAgent.beta self' = BetaAgent.beta self /\
  BetaAgent.n self' = BetaAgent.n self.
Proof.
  unfold BetaAgent.choose. intros Hch.
  apply bind_Ok in Hch as ([b act] & Hc & Hr). cbn in Hr.
  injection Hr as <- <-. apply choose_inv in Hc as (pol & _ & ->). done.
Qed.

(** A step of the loop that chose arm [a] and returned. *)
Lemma beta_step_arm `{!Agent.Policy P} (sample : list R) self self1 self2
    (a : nat) (reward : R) :
  BetaAgent.choose self = Ok (self1, Some a) ->
  BetaAgent.observe sample self1 reward = Ok self2 ->
  BetaAgent.alpha self2 !! a = (fun x => x + reward) <$> BetaAgent.alpha self !! a /\
  BetaAgent.beta self2 !! a
    = (fun x => x + (BetaAgent.n self - reward)) <$> BetaAgent.beta self !! a /\
  length (BetaAgent.alpha self2) = length (BetaAgent.alpha self) /\
  length (BetaAgent.beta self2) = length (BetaAgent.beta self) /\
  (a < length (BetaAgent.alpha self))%nat /\
  (a < length (BetaAgent.beta self))%nat /\
  BetaAgent.n self2 = BetaAgent.n self.
Proof.
  intros Hch Hobs.
  apply beta_choose_inv in Hch as (Hla & Hal & Hbe & Hn).
  apply beta_observe_inv in Hobs as (attempts & _ & H1 & H2 & Hn2 & _).
  rewrite Hla in H1, H2. rewrite Hal in H1. rewrite Hbe in H2.
  rewrite Hn in H2.
  split; [now apply iupdate_hit in H1|].
  split; [now apply iupdate_hit in H2|].
  split; [now apply iupdate_length in H1|].
  split; [now apply iupdate_length in H2|].
  split; [|split; [|congruence]].
  - cbn in H1. case_decide; [done|discriminate].
  - cbn in H2. case_decide; [done|discriminate].
Qed.

End BetaFacts.

(** C8.  [BetaAgent.observe] adds the reward to [alpha[last_action]] and
    [n - reward] to [beta[last_action]]; from the uniform prior with
    [n = 1], rewards 1, 0, 1 observed on one arm leave that arm with
    [alpha = 3] and [beta = 2]. *)
Theorem C8_beta_posterior_update {P : Type} `{!Agent.Policy P} :
  (forall (sample : list R) (self : BetaAgent.state P) (a : nat)
          (reward x y : R),
     Agent.last_action (BetaAgent.base self) = Some a ->
     (a < length (Agent.action_attempts (BetaAgent.base self)))%nat ->
     BetaAgent.alpha self !! a = Some x ->
     BetaAgent.beta self !! a = Some y ->
     exists self',
       BetaAgent.observe sample self reward = Ok self' /\
       BetaAgent.alpha self' !! a = Some (x + reward) /\
       BetaAgent.beta self' !! a = Some (y + (BetaAgent.n self - reward))) /\
  (forall (kk : nat) (pol : P) (ts0 : bool) (s1 s2 s3 : list R)
          (self' : BetaAgent.state P) (a : nat),
     Environment.run BetaAgent.choose beta_observe
       (BetaAgent.__init__ kk 1 pol ts0) [(s1, 1); (s2, 0); (s3, 1)]
       = Ok (self', [Some a; Some a; Some a]) ->
     BetaAgent.alpha self' !! a = Some 3 /\
     BetaAgent.beta self' !! a = Some 2).
Proof.
  split; [intros; now apply beta_observe_arm|].
  intros kk pol ts0 s1 s2 s3 self' a Hrun.
  apply run_cons_inv in Hrun
    as (a1 & act1 & b1 & acts1 & Hc1 & Ho1 & Hrun & Hacts).
  injection Hacts as <- <-.
  apply run_cons_inv in Hrun
    as (a2 & act2 & b2 & acts2 & Hc2 & Ho2 & Hrun & Hacts).
  injection Hacts as <- <-.
  apply run_cons_inv in Hrun
    as (a3 & act3 & b3 & acts3 & Hc3 & Ho3 & Hrun & Hacts).
  injection Hacts as <- <-. injection Hrun as <-.
  destruct (beta_step_arm _ _ _ _ _ _ Hc1 Ho1)
    as (Hal1 & Hbe1 & _ & _ & Hla & Hlb & Hn1).
  destruct (beta_step_arm _ _ _ _ _ _ Hc2 Ho2)
    as (Hal2 & Hbe2 & _ & _ & _ & _ & Hn2).
  destruct (beta_step_arm _ _ _ _ _ _ Hc3 Ho3)
    as (Hal3 & Hbe3 & _ & _ & _ & _ & _).
  cbn in Hla, Hlb, Hal1, Hbe1. unfold np.full in *.
  rewrite length_replicate in Hla, Hlb.
  rewrite lookup_replicate_2 in Hal1, Hbe1 by done.
  rewrite Hal3, Hal2, Hal1, Hbe3, Hbe2, Hbe1, Hn2, Hn1. cbn.
  split; f_equal; lra.
Qed.

(** Two arms, posterior-mean mode, and the base Policy, which always picks
    arm 0: after rewards 1, 0, 1 arm 0 has [alpha = 3] and [beta = 2]. *)
Lemma C8_beta_posterior_update_witness :
  (exists self',
     BetaAgent.observe []
       (BetaAgent.mk (Agent.mk Policy.mk 2 0 None [0; 0] [0; 0]%nat 0
                        (Some 0%nat)) 1 false [1; 1] [1; 1]) 1 = Ok self' /\
     BetaAgent.alpha self' !! 0%nat = Some (1 + 1) /\
     BetaAgent.beta self' !! 0%nat = Some (1 + (1 - 1))) /\
  (exists self',
     Environment.run BetaAgent.choose beta_observe
       (BetaAgent.__init__ 2 1 Policy.mk false) [([], 1); ([], 0); ([], 1)]
       = Ok (self', [Some 0; Some 0; Some 0]%nat) /\
     BetaAgent.alpha self' !! 0%nat = Some 3 /\
     BetaAgent.beta self' !! 0%nat = Some 2).
Proof.
  split.
  - apply (proj1 C8_beta_posterior_update []
             (BetaAgent.mk (Agent.mk Policy.mk 2 0 None [0; 0] [0; 0]%nat 0
                              (Some 0%nat)) 1 false [1; 1] [1; 1])
             0%nat 1 1 1).
    + reflexivity.
    + cbn. lia.
    + reflexivity.
    + reflexivity.
  - eexists. split; [vm_compute; reflexivity|].
    apply (proj2 C8_beta_posterior_update 2%nat Policy.mk false [] [] [] _ 0%nat).
    vm_compute. reflexivity.
Defined.

(** ** GradientAgent.observe *)

Section SumFacts.

Lemma sum_cons (x : R) (l : list R) : np.sum (x :: l) = x + np.sum l.
Proof. reflexivity. Qed.

Lemma sum_nil : np.sum [] = 0.
Proof. reflexivity. Qed.

Ltac sum_step := cbn [fmap list_fmap zip_with]; rewrite ?sum_cons, ?sum_nil.

Lemma sum_fmap_div (s : R) (e : list R) :
  np.sum ((fun x => x / s) <$> e) = np.sum e / s.
Proof.
  induction e as [|x e IH]; sum_step.
  - unfold Rdiv. ring.
  - rewrite IH. unfold Rdiv. ring.
Qed.

Lemma sum_exp_nonneg (h : list R) : 0 <= np.sum (exp <$> h).
Proof.
  induction h as [|x h IH]; sum_step; [lra|].
  pose proof (exp_pos x). lra.
Qed.

Lemma sum_exp_pos (h : list R) : h <> [] -> 0 < np.sum (exp <$> h).
Proof.
  destruct h as [|x h]; [done|]. intros _. sum_step.
  pose proof (exp_pos x). pose proof (sum_exp_nonneg h). lra.
Qed.

(** The softmax probabilities add up to 1. *)
Lemma sum_softmax (h : list R) :
  h <> [] -> np.sum (GradientAgent.softmax h) = 1.
Proof.
  intros Hne. unfold GradientAgent.softmax. cbv zeta.
  rewrite sum_fmap_div. pose proof (sum_exp_pos h Hne). field. lra.
Qed.

Lemma length_softmax (h : list R) :
  length (GradientAgent.softmax h) = length h.
Proof. unfold GradientAgent.softmax. cbv zeta. now rewrite !length_fmap. Qed.

Lemma sum_zip_with_sub (d : R) (h : list R) : forall pi : list R,
  length pi = length h ->
  np.sum (zip_with (fun v p => v - d * p) h pi) = np.sum h - d * np.sum pi.
Proof.
  induction h as [|v h IH]; intros [|p pi] Hlen; try discriminate; sum_step.
  - ring.
  - rewrite IH by (cbn in Hlen; lia). ring.
Qed.

Lemma sum_insert (y : R) (l : list R) : forall (a : nat) (x : R),
  l !! a = Some x -> np.sum (<[a := y]> l) = np.sum l - x + y.
Proof.
  induction l as [|z l IH]; intros [|a] x Hx; try discriminate.
  - injection Hx as ->. change (<[0%nat := y]> (x :: l)) with (y :: l).
    sum_step. ring.
  - change (<[S a := y]> (z :: l)) with (z :: <[a := y]> l).
    sum_step. rewrite (IH a x Hx). ring.
Qed.

(** The sum of the cell-wise differences of two arrays of one shape. *)
Lemma sum_differences (h' : list R) : forall h : list R,
  length h' = length h ->
  np.sum (zip_with Rminus h' h) = np.sum h' - np.sum h.
Proof.
  induction h' as [|v h' IH]; intros [|w h] Hlen; try discriminate; sum_step.
  - ring.
  - rewrite IH by (cbn in Hlen; lia). ring.
Qed.

End SumFacts.

(** C7.  For a GradientAgent whose last action is an arm [a], [observe]
    returns, the chosen preference gains
    [alpha * (reward - baseline) * (1 - pi[a])], every other preference
    loses [alpha * (reward - baseline) * pi[i]], and over the reals these
    adjustments add up to exactly zero. *)
Theorem C7_gradient_adjustments_cancel {P : Type}
    (self : GradientAgent.state P) (a : nat) (reward : R) :
  Agent.wf (GradientAgent.base self) ->
  Agent.last_action (GradientAgent.base self) = Some a ->
  (a < Agent.k (GradientAgent.base self))%nat ->
  exists self',
    GradientAgent.observe self reward = Ok self' /\
    let h := Agent.value_estimates (GradientAgent.base self) in
    let h' := Agent.value_estimates (GradientAgent.base self') in
    let pi := GradientAgent.softmax h in
    let d :=
      GradientAgent.alpha self * (reward - GradientAgent.average_reward self') in
    (exists h_a pi_a,
       h !! a = Some h_a /\ pi !! a = Some pi_a /\
       h' !! a = Some (h_a + d * (1 - pi_a))) /\
    (forall i h_i pi_i,
       i <> a -> h !! i = Some h_i -> pi !! i = Some pi_i ->
       h' !! i = Some (h_i - d * pi_i)) /\
    length h' = length h /\
    np.sum (zip_with Rminus h' h) = 0.
Proof.
  intros [Hv Ha] Hla Hlt.
  assert (a < length (Agent.value_estimates (GradientAgent.base self)))%nat
    as Hlv by lia.
  destruct (lookup_lt_is_Some_2 _ _ Hlv) as [h_a Hh].
  pose proof (length_softmax (Agent.value_estimates (GradientAgent.base self)))
    as Hlpi.
  destruct (lookup_lt_is_Some_2
              (GradientAgent.softmax
                 (Agent.value_estimates (GradientAgent.base self))) a)
    as [pi_a Hpi]; [lia|].
  unfold GradientAgent.observe. cbv zeta. rewrite Hla.
  rewrite iupdate_Some, bind_ret by lia.
  unfold GradientAgent.update_preferences, np.getitem. cbv zeta.
  rewrite Hh, Hpi, !bind_ret.
  eexists. split; [reflexivity|]. cbn [GradientAgent.base
    GradientAgent.average_reward Agent.value_estimates].
  set (h := Agent.value_estimates (GradientAgent.base self)) in *.
  set (pi := GradientAgent.softmax h) in *.
  match goal with
  | |- context [<[a := h_a + ?d0 * (1 - pi_a)]> _] => set (d := d0)
  end.
  assert (length (zip_with (fun v p => v - d * p) h pi) = length h) as Hlz
    by (rewrite length_zip_with; lia).
  assert (zip_with (fun v p => v - d * p) h pi !! a = Some (h_a - d * pi_a))
    as Hza by (rewrite lookup_zip_with, Hh, Hpi; done).
  split; [|split; [|split]].
  - exists h_a, pi_a. split; [done|]. split; [done|].
    apply list_lookup_insert_eq. lia.
  - intros i h_i pi_i Hne Hhi Hpii.
    rewrite list_lookup_insert_ne by done.
    now rewrite lookup_zip_with, Hhi, Hpii.
  - now rewrite length_insert.
  - rewrite sum_differences by (rewrite length_insert; lia).
    rewrite (sum_insert _ _ a _ Hza), sum_zip_with_sub by done.
    unfold pi. rewrite sum_softmax; [ring|].
    intros Hnil. rewrite Hnil in Hlv. cbn in Hlv. lia.
Qed.

(** Two arms with preferences 0 and 1, arm 0 chosen, reward 1. *)
Lemma C7_gradient_adjustments_cancel_witness :
  exists self',
    GradientAgent.observe
      (GradientAgent.mk
         (Agent.mk Policy.mk 2 0 None [0; 1] [0; 0]%nat 0 (Some 0%nat))
         (1 / 10) true 0) 1 = Ok self' /\
    let h := [0; 1] in
    let h' := Agent.value_estimates (GradientAgent.base self') in
    let pi := GradientAgent.softmax h in
    let d := 1 / 10 * (1 - GradientAgent.average_reward self') in
    (exists h_a pi_a,
       h !! 0%nat = Some h_a /\ pi !! 0%nat = Some pi_a /\
       h' !! 0%nat = Some (h_a + d * (1 - pi_a))) /\
    (forall i h_i pi_i,
       i <> 0%nat -> h !! i = Some h_i -> pi !! i = Some pi_i ->
       h' !! i = Some (h_i - d * pi_i)) /\
    length h' = length h /\
    np.sum (zip_with Rminus h' h) = 0.
Proof.
  apply (C7_gradient_adjustments_cancel
           (GradientAgent.mk
              (Agent.mk Policy.mk 2 0 None [0; 1] [0; 0]%nat 0 (Some 0%nat))
              (1 / 10) true 0) 0 1).
  - split; reflexivity.
  - reflexivity.
  - cbn. lia.
Defined.

(** ** UCBPolicy: the exploration bonus *)

Section UCBFacts.
Context {P : Type}.
Implicit Types agent : Agent.state P.

Lemma ln_succ_pos (t : nat) : (1 <= t)%nat -> 0 < ln (INR (t + 1)).
Proof.
  intros Ht. rewrite <- ln_1. apply ln_increasing; [lra|].
  rewrite plus_INR. cbn. apply le_INR in Ht. cbn in Ht. lra.
Qed.

(** A positive dividend over a zero count is [+inf], not NaN. *)
Lemma true_divide_pos_zero (x : R) :
  0 < x -> npfloat.true_divide x 0 = npfloat.PInf.
Proof.
  intros Hx. unfold npfloat.true_divide.
  destruct (Req_dec_T 0 0) as [_|Hne]; [|done].
  destruct (Req_dec_T x 0) as [Hx0|_]; [lra|].
  destruct (Rlt_dec 0 x); [done|lra].
Qed.

(** [0 / 0] is NaN. *)
Lemma true_divide_zero_zero : npfloat.true_divide 0 0 = npfloat.NaN.
Proof.
  unfold npfloat.true_divide.
  destruct (Req_dec_T 0 0) as [_|Hne]; [done|done].
Qed.

Lemma power_PInf_pos (p : R) :
  0 < p -> npfloat.power npfloat.PInf p = npfloat.PInf.
Proof.
  intros Hp. unfold npfloat.power.
  destruct (Req_dec_T p 0); [lra|]. destruct (Rlt_dec 0 p); [done|lra].
Qed.

Lemma power_zero_pos (p : R) :
  0 < p -> npfloat.power (npfloat.Fin 0) p = npfloat.Fin 0.
Proof.
  intros Hp. unfold npfloat.power.
  destruct (Req_dec_T p 0); [lra|].
  destruct (Rlt_dec 0 0); [lra|].
  destruct (Req_dec_T 0 0); [|done]. destruct (Rlt_dec 0 p); [done|lra].
Qed.

Lemma inv_c_pos (self : UCBPolicy.state) :
  0 < UCBPolicy.c self ->
  UCBPolicy.inv_c self = Ok (1 / UCBPolicy.c self) /\ 0 < 1 / UCBPolicy.c self.
Proof.
  intros Hc. unfold UCBPolicy.inv_c.
  destruct (Req_dec_T (UCBPolicy.c self) 0); [lra|]. split; [done|].
  apply Rdiv_lt_0_compat; lra.
Qed.

(** The bonus of an arm that has not been tried, for [c > 0]: [+inf] once
    a reward has been observed; 0 only while [t = 0], where the quotient is
    [0 / 0] and the NaN is replaced. *)
Lemma ucb_bonus_untried (self : UCBPolicy.state) agent (i : nat) :
  0 < UCBPolicy.c self ->
  Agent.action_attempts agent !! i = Some 0%nat ->
  exists e,
    UCBPolicy.exploration self agent = Ok e /\
    ((1 <= Agent.t agent)%nat -> e !! i = Some npfloat.PInf) /\
    (Agent.t agent = 0%nat -> e !! i = Some (npfloat.Fin 0)).
Proof.
  intros Hc Hi. destruct (inv_c_pos self Hc) as [Hinv Hp].
  unfold UCBPolicy.exploration. cbv zeta. rewrite Hinv, bind_ret.
  eexists. split; [reflexivity|].
  rewrite !list_lookup_fmap, Hi. cbn [fmap option_fmap option_map].
  change (INR 0) with 0. split.
  - intros Ht. rewrite true_divide_pos_zero by now apply ln_succ_pos.
    cbn [npfloat.isnan]. now rewrite power_PInf_pos.
  - intros ->. change (INR (0 + 1)) with 1.
    rewrite ln_1, true_divide_zero_zero.
    cbn [npfloat.isnan]. now rewrite power_zero_pos.
Qed.

(** With [c = 0] the policy is constructed, and fails when it is used. *)
Lemma ucb_zero_c_fails_in_choose agent :
  UCBPolicy.exploration (UCBPolicy.mk 0) agent = Raise ZeroDivisionError.
Proof.
  unfold UCBPolicy.exploration, UCBPolicy.inv_c. cbn.
  destruct (Req_dec_T 0 0); [done|done].
Qed.

End UCBFacts.

(** C3 (as the code behaves).  For [c > 0] and an arm [i] with no attempt:
    once a reward has been observed ([t >= 1]) the bonus computed for arm
    [i] is [+inf], neither 0 nor NaN; the substitution by 0 applies to NaN
    only, which arises while [t = 0]. *)
Theorem C3_ucb_bonus_of_untried_arm {P : Type} (self : UCBPolicy.state)
    (agent : Agent.state P) (i : nat) :
  0 < UCBPolicy.c self ->
  Agent.action_attempts agent !! i = Some 0%nat ->
  exists e,
    UCBPolicy.exploration self agent = Ok e /\
    e !! i = Some (if decide (Agent.t agent = 0%nat) then npfloat.Fin 0
                   else npfloat.PInf).
Proof.
  intros Hc Hi.
  destruct (ucb_bonus_untried self agent i Hc Hi) as (e & He & Hinf & Hzero).
  exists e. split; [done|].
  destruct (decide (Agent.t agent = 0%nat)) as [Ht|Ht]; [auto|].
  apply Hinf. lia.
Qed.

Lemma C3_ucb_bonus_of_untried_arm_witness :
  exists e,
    UCBPolicy.exploration (UCBPolicy.mk 2)
      (Agent.mk Policy.mk 2 0 None [1; 0] [1; 0]%nat 1 (Some 0%nat)) = Ok e /\
    e !! 1%nat = Some npfloat.PInf.
Proof.
  apply (C3_ucb_bonus_of_untried_arm (UCBPolicy.mk 2)
           (Agent.mk Policy.mk 2 0 None [1; 0] [1; 0]%nat 1 (Some 0%nat)) 1).
  - cbn. lra.
  - reflexivity.
Defined.

(** Two arms after one step on arm 0 ([t = 1], attempts 1 and 0), [c = 2]:
    the bonus of arm 1 is [+inf], not 0. *)
Lemma C3_ucb_bonus_is_infinite :
  exists e,
    UCBPolicy.exploration (UCBPolicy.mk 2)
      (Agent.mk Policy.mk 2 0 None [1; 0] [1; 0]%nat 1 (Some 0%nat)) = Ok e /\
    e !! 1%nat = Some npfloat.PInf /\
    e !! 1%nat <> Some (npfloat.Fin 0).
Proof.
  destruct (ucb_bonus_untried (UCBPolicy.mk 2)
              (Agent.mk Policy.mk 2 0 None [1; 0] [1; 0]%nat 1 (Some 0%nat)) 1)
    as (e & He & Hinf & _); [cbn; lra|done|].
  exists e. split; [done|]. cbn in Hinf. rewrite Hinf by lia.
  split; [done|discriminate].
Qed.

(** ** Construction *)

(** C5 (as the code behaves).  The constructors validate nothing:
    [EpsilonGreedyPolicy(epsilon)] and [UCBPolicy(c)] return a policy
    holding the argument for every [epsilon] and every [c]. *)
Theorem C5_constructors_accept_every_parameter (epsilon0 c0 : R) :
  EpsilonGreedyPolicy.__init__ epsilon0 = Ok (EpsilonGreedyPolicy.mk epsilon0) /\
  UCBPolicy.__init__ c0 = Ok (UCBPolicy.mk c0) /\
  ~ raises (EpsilonGreedyPolicy.__init__ epsilon0) /\
  ~ raises (UCBPolicy.__init__ c0).
Proof.
  split; [done|]. split; [done|].
  split; intros [e He]; discriminate.
Qed.

(** [epsilon = 2] and [c = -1] (and [c = 0]) are accepted. *)
Lemma C5_invalid_parameters_are_accepted :
  ~ (0 <= 2 <= 1) /\
  EpsilonGreedyPolicy.__init__ 2 = Ok (EpsilonGreedyPolicy.mk 2) /\
  -1 <= 0 /\
  UCBPolicy.__init__ (-1) = Ok (UCBPolicy.mk (-1)) /\
  UCBPolicy.__init__ 0 = Ok (UCBPolicy.mk 0).
Proof.
  split; [lra|]. split; [done|]. split; [lra|]. done.
Qed.

(** * Further properties of the code *)

(** ** np.argmax, np.where and np.random.choice as the source uses them *)

Section ArgmaxFacts.

Lemma argmax_from_first_max (rest : list R) :
  forall (pre : list R) (best : nat) (bv : R),
  pre !! best = Some bv ->
  (forall j x, pre !! j = Some x -> x <= bv) ->
  (forall j x, (j < best)%nat -> pre !! j = Some x -> x < bv) ->
  first_max (pre ++ rest) (np.argmax_from best bv (length pre) rest).
Proof.
  induction rest as [|x rest IH]; intros pre best bv Hbest Hmax Hfirst.
  - rewrite app_nil_r. exists bv. cbn. eauto.
  - cbn [np.argmax_from].
    replace (pre ++ x :: rest) with ((pre ++ [x]) ++ rest)
      by now rewrite <- app_assoc.
    replace (S (length pre)) with (length (pre ++ [x]))
      by (rewrite length_app; cbn; lia).
    pose proof (lookup_lt_Some _ _ _ Hbest) as Hlt.
    destruct (Rlt_dec bv x) as [Hx|Hx].
    + apply IH.
      * now rewrite lookup_app_r, Nat.sub_diag by lia.
      * intros j y Hj. apply lookup_app_Some in Hj as [Hj|[Hge Hj]].
        -- apply Hmax in Hj. lra.
        -- apply list_lookup_singleton_Some in Hj as [_ ->]. lra.
      * intros j y Hlj Hj. apply lookup_app_Some in Hj as [Hj|[Hge Hj]].
        -- apply Hmax in Hj. lra.
        -- lia.
    + apply IH.
      * now rewrite lookup_app_l.
      * intros j y Hj. apply lookup_app_Some in Hj as [Hj|[Hge Hj]].
        -- now apply (Hmax j).
        -- apply list_lookup_singleton_Some in Hj as [_ ->]. lra.
      * intros j y Hlj Hj. apply lookup_app_Some in Hj as [Hj|[Hge Hj]].
        -- now apply (Hfirst j).
        -- lia.
Qed.

(** [np.argmax] on a non-empty array returns the first index of the
    maximum. *)
Lemma argmax_first_max (arr : list R) :
  arr <> [] -> exists r, np.argmax arr = Ok r /\ first_max arr r.
Proof.
  destruct arr as [|x rest]; [done|]. intros _. eexists. split; [done|].
  apply (argmax_from_first_max rest [x] 0 x).
  - done.
  - intros [|j] y Hj; [injection Hj as ->; lra|done].
  - intros j y Hj. lia.
Qed.

Lemma first_max_lt (arr : list R) (r : nat) :
  first_max arr r -> (r < length arr)%nat.
Proof. intros (v & Hv & _). now apply lookup_lt_Some in Hv. Qed.

Lemma elem_of_where_from {A : Type} (cond : A -> bool) (arr : list A) :
  forall (i0 i : nat),
  i ∈ np.where_from cond i0 arr <->
  exists x, (i0 <= i)%nat /\ arr !! (i - i0)%nat = Some x /\ cond x = true.
Proof.
  induction arr as [|y arr IH]; intros i0 i; cbn [np.where_from].
  - split; [intros H; by apply not_elem_of_nil in H|].
    intros (x & _ & Hx & _). done.
  - assert (i ∈ np.where_from cond (S i0) arr <->
            exists x, (i0 < i)%nat /\ (y :: arr) !! (i - i0)%nat = Some x /\
                      cond x = true) as Htail.
    { rewrite IH. split; intros (x & Hle & Hx & Hc); exists x.
      - split; [lia|]. split; [|done].
        replace (i - i0)%nat with (S (i - S i0)) by lia. done.
      - split; [lia|]. split; [|done].
        replace (i - i0)%nat with (S (i - S i0)) in Hx by lia. done. }
    destruct (cond y) eqn:Hy.
    + rewrite elem_of_cons, Htail. split.
      * intros [->|(x & Hle & Hx & Hc)].
        -- exists y. rewrite Nat.sub_diag. done.
        -- exists x. split; [lia|done].
      * intros (x & Hle & Hx & Hc).
        destruct (decide (i = i0)) as [->|Hne]; [now left|].
        right. exists x. split; [lia|done].
    + rewrite Htail. split.
      * intros (x & Hle & Hx & Hc). exists x. split; [lia|done].
      * intros (x & Hle & Hx & Hc).
        destruct (decide (i = i0)) as [->|Hne].
        -- rewrite Nat.sub_diag in Hx. injection Hx as ->. congruence.
        -- exists x. split; [lia|done].
Qed.

(** The indices [np.where] returns are those at which the condition
    holds. *)
Lemma elem_of_where {A : Type} (cond : A -> bool) (arr : list A) (i : nat) :
  i ∈ np.where_ cond arr <-> exists x, arr !! i = Some x /\ cond x = true.
Proof.
  unfold np.where_. rewrite elem_of_where_from. rewrite Nat.sub_0_r.
  split; intros (x & H); exists x; [tauto|]. split; [lia|tauto].
Qed.

(** A draw from a non-empty sequence is one of its elements. *)
Lemma random_choice_elem {A : Type} (pick : nat) (a : list A) :
  a <> [] -> exists x, np.random_choice pick a = Ok x /\ x ∈ a.
Proof.
  intros Hne. unfold np.random_choice.
  assert (pick mod length a < length a)%nat as Hlt.
  { apply Nat.mod_upper_bound. destruct a; [done|cbn; lia]. }
  destruct (lookup_lt_is_Some_2 _ _ Hlt) as [x Hx]. rewrite Hx.
  exists x. split; [done|]. now apply list_elem_of_lookup_2 in Hx.
Qed.

Lemma random_choice_empty {A : Type} (pick : nat) :
  np.random_choice pick (@nil A) = Raise ValueError.
Proof. reflexivity. Qed.

(** The tie-break returns an index of [check] when [action] is one. *)
Lemma break_ties_elem (pick action : nat) (check : list nat) :
  action ∈ check ->
  exists a, EpsilonGreedyPolicy.break_ties pick action check = Ok a /\ a ∈ check.
Proof.
  intros Hin. unfold EpsilonGreedyPolicy.break_ties.
  destruct (decide (length check = 1%nat)); [eauto|].
  apply random_choice_elem. intros ->. by apply not_elem_of_nil in Hin.
Qed.

End ArgmaxFacts.

(** ** EpsilonGreedyPolicy.choose *)

(** When the draw [u] does not fall below [epsilon] the policy exploits:
    on a non-empty array it returns, without changing itself, an arm whose
    estimate is the maximum, whatever the tie-break draws.  For the greedy
    policy ([epsilon = 0]) that is every call. *)
Theorem epsilon_greedy_exploit_is_maximal {P : Type} (u : R) (pick : nat)
    (self : EpsilonGreedyPolicy.state) (agent : Agent.state P) :
  EpsilonGreedyPolicy.epsilon self <= u ->
  Agent.value_estimates agent <> [] ->
  exists a v,
    EpsilonGreedyPolicy.choose u pick self agent = Ok (self, Some a) /\
    Agent.value_estimates agent !! a = Some v /\
    forall j x, Agent.value_estimates agent !! j = Some x -> x <= v.
Proof.
  intros Hu Hne. unfold EpsilonGreedyPolicy.choose. cbv zeta.
  destruct (Rlt_dec u (EpsilonGreedyPolicy.epsilon self)) as [Hlt|_]; [lra|].
  destruct (argmax_first_max _ Hne) as (r & Hr & v & Hv & Hmax & _).
  rewrite Hr, bind_ret. unfold np.getitem. rewrite Hv, bind_ret.
  destruct (break_ties_elem pick r
              (np.where_ (np.eq_R v) (Agent.value_estimates agent)))
    as (a & Ha & Hin).
  { apply elem_of_where. exists v. split; [done|]. unfold np.eq_R.
    destruct (Req_dec_T v v); done. }
  rewrite Ha, bind_ret. exists a, v. split; [done|].
  apply elem_of_where in Hin as (x & Hx & Hc). unfold np.eq_R in Hc.
  destruct (Req_dec_T x v) as [->|]; [|done]. done.
Qed.

Lemma epsilon_greedy_exploit_is_maximal_witness :
  exists a v,
    EpsilonGreedyPolicy.choose (1 / 2) 7 (EpsilonGreedyPolicy.mk 0)
      (Agent.mk Policy.mk 3 0 None [1; 4; 4] [1; 1; 1]%nat 3 (Some 0%nat))
      = Ok (EpsilonGreedyPolicy.mk 0, Some a) /\
    [1; 4; 4] !! a = Some v /\
    forall j x, [1; 4; 4] !! j = Some x -> x <= v.
Proof.
  apply (epsilon_greedy_exploit_is_maximal (1 / 2) 7
           (EpsilonGreedyPolicy.mk 0)
           (Agent.mk Policy.mk 3 0 None [1; 4; 4] [1; 1; 1]%nat 3
              (Some 0%nat))).
  - cbn. lra.
  - discriminate.
Defined.

(** When the draw [u] falls below [epsilon] the policy explores: with at
    least one arm it returns the arm drawn, [pick mod k], whatever the
    estimates are.  For the random policy ([epsilon = 1]) that is every
    call, since [u < 1]. *)
Theorem epsilon_greedy_explore_ignores_estimates {P : Type} (u : R)
    (pick : nat) (self : EpsilonGreedyPolicy.state) (agent : Agent.state P) :
  u < EpsilonGreedyPolicy.epsilon self ->
  (1 <= length (Agent.value_estimates agent))%nat ->
  EpsilonGreedyPolicy.choose u pick self agent
    = Ok (self, Some (pick mod length (Agent.value_estimates agent))%nat) /\
  (pick mod length (Agent.value_estimates agent)
     < length (Agent.value_estimates agent))%nat.
Proof.
  intros Hu Hk. unfold EpsilonGreedyPolicy.choose. cbv zeta.
  destruct (Rlt_dec u (EpsilonGreedyPolicy.epsilon self)) as [_|Hn]; [|lra].
  assert (pick mod length (Agent.value_estimates agent)
            < length (Agent.value_estimates agent))%nat as Hlt
    by (apply Nat.mod_upper_bound; lia).
  split; [|done]. unfold np.random_choice.
  rewrite length_seq, lookup_seq_lt by done. done.
Qed.

Lemma epsilon_greedy_explore_ignores_estimates_witness :
  EpsilonGreedyPolicy.choose (1 / 2) 7 (EpsilonGreedyPolicy.mk 1)
    (Agent.mk Policy.mk 3 0 None [1; 4; 4] [1; 1; 1]%nat 3 (Some 0%nat))
    = Ok (EpsilonGreedyPolicy.mk 1, Some (7 mod 3)%nat) /\
  (7 mod 3 < 3)%nat.
Proof.
  apply (epsilon_greedy_explore_ignores_estimates (1 / 2) 7
           (EpsilonGreedyPolicy.mk 1)
           (Agent.mk Policy.mk 3 0 None [1; 4; 4] [1; 1; 1]%nat 3
              (Some 0%nat))).
  - cbn. lra.
  - cbn. lia.
Defined.

(** Over zero arms both branches raise ValueError, whatever the draws:
    [np.random.choice(0)] when exploring, [np.argmax] of an empty array
    when exploiting. *)
Theorem epsilon_greedy_no_arms_raises {P : Type} (u : R) (pick : nat)
    (self : EpsilonGreedyPolicy.state) (agent : Agent.state P) :
  Agent.value_estimates agent = [] ->
  EpsilonGreedyPolicy.choose u pick self agent = Raise ValueError.
Proof.
  intros Hnil. unfold EpsilonGreedyPolicy.choose. cbv zeta. rewrite Hnil.
  destruct (Rlt_dec u (EpsilonGreedyPolicy.epsilon self)); reflexivity.
Qed.

Lemma epsilon_greedy_no_arms_raises_witness :
  EpsilonGreedyPolicy.choose (1 / 2) 7 (EpsilonGreedyPolicy.mk (1 / 10))
    (Agent.__init__ 0 Policy.mk 0 None) = Raise ValueError.
Proof.
  apply (epsilon_greedy_no_arms_raises (1 / 2) 7
           (EpsilonGreedyPolicy.mk (1 / 10))
           (Agent.__init__ 0 Policy.mk 0 None)).
  reflexivity.
Defined.

(** The arm an epsilon-greedy policy returns is always in range. *)
Lemma epsilon_greedy_in_range {P : Type} (u : R) (pick : nat)
    (self : EpsilonGreedyPolicy.state) (agent : Agent.state P) :
  (1 <= length (Agent.value_estimates agent))%nat ->
  exists a,
    EpsilonGreedyPolicy.choose u pick self agent = Ok (self, Some a) /\
    (a < length (Agent.value_estimates agent))%nat.
Proof.
  intros Hk. unfold EpsilonGreedyPolicy.choose. cbv zeta.
  destruct (Rlt_dec u (EpsilonGreedyPolicy.epsilon self)) as [Hu|Hu].
  - destruct (random_choice_elem pick
                (seq 0 (length (Agent.value_estimates agent))))
      as (a & Ha & Hin).
    { destruct (Agent.value_estimates agent); [cbn in Hk; lia|done]. }
    rewrite Ha, bind_ret. exists a. split; [done|].
    apply elem_of_seq in Hin. lia.
  - destruct (argmax_first_max (Agent.value_estimates agent))
      as (r & Hr & v & Hv & _).
    { intros Hnil. rewrite Hnil in Hk. cbn in Hk. lia. }
    rewrite Hr, bind_ret. unfold np.getitem. rewrite Hv, bind_ret.
    destruct (break_ties_elem pick r
                (np.where_ (np.eq_R v) (Agent.value_estimates agent)))
      as (a & Ha & Hin).
    { apply elem_of_where. exists v. split; [done|]. unfold np.eq_R.
      destruct (Req_dec_T v v); done. }
    rewrite Ha, bind_ret. exists a. split; [done|].
    apply elem_of_where in Hin as (x & Hx & _).
    now apply lookup_lt_Some in Hx.
Qed.

(** A step of the loop with an epsilon-greedy policy, whatever its
    [epsilon] and whatever the draws, on a well-formed agent with at least
    one arm: [choose] returns an arm below [k], [observe] accepts it, and
    the shapes are kept; nothing raises. *)
Theorem epsilon_greedy_step_returns (u : R) (pick : nat)
    (agent : Agent.state EpsilonGreedyPolicy.state) (reward : R) :
  Agent.wf agent -> (1 <= Agent.k agent)%nat ->
  exists agent' a,
    Environment.step
      (@Agent.choose _ (EpsilonGreedyPolicy.choose u pick)) Agent.observe
      agent reward = Ok (agent', Some a) /\
    (a < Agent.k agent)%nat /\
    Agent.last_action agent' = Some a /\
    Agent.t agent' = S (Agent.t agent) /\
    Agent.k agent' = Agent.k agent /\
    Agent.wf agent'.
Proof.
  intros Hwf Hk. pose proof Hwf as [Hv Ha].
  destruct (epsilon_greedy_in_range u pick (Agent.policy agent) agent)
    as (a & Hc & Hlt); [lia|].
  set (agent1 := Agent.mk (Agent.policy agent) (Agent.k agent)
                   (Agent.prior agent) (Agent.gamma agent)
                   (Agent.value_estimates agent)
                   (Agent.action_attempts agent) (Agent.t agent) (Some a)).
  assert (@Agent.choose _ (EpsilonGreedyPolicy.choose u pick) agent
          = Ok (agent1, Some a)) as Hch.
  { unfold Agent.choose, Agent.policy_choose. now rewrite Hc. }
  assert (Agent.wf agent1) as Hwf1 by done.
  destruct (observe_total agent1 reward a Hwf1 eq_refl) as [agent2 Ho].
  { cbn. lia. }
  exists agent2, a. unfold Environment.step.
  rewrite Hch, bind_ret. cbn beta iota. rewrite Ho, bind_ret.
  split; [done|]. split; [lia|].
  pose proof (observe_wf _ _ _ Hwf1 Ho) as Hwf2.
  apply observe_inv in Ho as (attempts & estimates & _ & _ & ->). done.
Qed.

Lemma epsilon_greedy_step_returns_witness :
  exists agent' a,
    Environment.step
      (@Agent.choose _ (EpsilonGreedyPolicy.choose (1 / 2) 7)) Agent.observe
      (Agent.__init__ 3 (EpsilonGreedyPolicy.mk (1 / 10)) 0 None) 1
      = Ok (agent', Some a) /\
    (a < 3)%nat /\
    Agent.last_action agent' = Some a /\
    Agent.t agent' = 1%nat /\
    Agent.k agent' = 3%nat /\
    Agent.wf agent'.
Proof.
  apply (epsilon_greedy_step_returns (1 / 2) 7
           (Agent.__init__ 3 (EpsilonGreedyPolicy.mk (1 / 10)) 0 None) 1).
  - apply init_wf.
  - cbn. lia.
Defined.

(** ** UCBPolicy.choose *)

Section FloatArgmax.

Lemma npfloat_le_total (x y : npfloat.t) :
  npfloat.isnan x = false -> npfloat.isnan y = false ->
  npfloat.le x y = false -> npfloat.le y x = true.
Proof.
  destruct x as [a| | |], y as [b| | |]; cbn; try done.
  destruct (Rle_dec a b), (Rle_dec b a); try done. lra.
Qed.

Lemma npfloat_le_trans (x y z : npfloat.t) :
  npfloat.le x y = true -> npfloat.le y z = true -> npfloat.le x z = true.
Proof.
  destruct x as [a| | |], y as [b| | |], z as [c| | |]; cbn; try done.
  destruct (Rle_dec a b), (Rle_dec b c), (Rle_dec a c); try done. lra.
Qed.

Lemma npfloat_le_refl (x : npfloat.t) :
  npfloat.isnan x = false -> npfloat.le x x = true.
Proof.
  destruct x as [a| | |]; cbn; try done.
  destruct (Rle_dec a a); [done|lra].
Qed.

Lemma npfloat_argmax_from_max (rest : list npfloat.t) :
  forall (pre : list npfloat.t) (best : nat) (bv : npfloat.t),
  Forall (fun x => npfloat.isnan x = false) rest ->
  npfloat.isnan bv = false ->
  pre !! best = Some bv ->
  (forall j x, pre !! j = Some x -> npfloat.le x bv = true) ->
  exists v,
    (pre ++ rest) !! npfloat.argmax_from best bv (length pre) rest = Some v /\
    forall j x, (pre ++ rest) !! j = Some x -> npfloat.le x v = true.
Proof.
  induction rest as [|x rest IH]; intros pre best bv Hnn Hbv Hbest Hmax.
  - rewrite app_nil_r. exists bv. cbn. eauto.
  - apply Forall_cons in Hnn as [Hx Hnn]. cbn [npfloat.argmax_from].
    rewrite Hbv.
    replace (pre ++ x :: rest) with ((pre ++ [x]) ++ rest)
      by now rewrite <- app_assoc.
    replace (S (length pre)) with (length (pre ++ [x]))
      by (rewrite length_app; cbn; lia).
    pose proof (lookup_lt_Some _ _ _ Hbest) as Hlt.
    destruct (npfloat.le x bv) eqn:Hle.
    + apply IH; [done|done| |].
      * now rewrite lookup_app_l.
      * intros j y Hj. apply lookup_app_Some in Hj as [Hj|[Hge Hj]].
        -- now apply (Hmax j).
        -- apply list_lookup_singleton_Some in Hj as [_ <-]. done.
    + apply IH; [done|done| |].
      * now rewrite lookup_app_r, Nat.sub_diag by lia.
      * intros j y Hj. apply lookup_app_Some in Hj as [Hj|[Hge Hj]].
        -- apply (npfloat_le_trans y bv x); [now apply (Hmax j)|].
           now apply npfloat_le_total.
        -- apply list_lookup_singleton_Some in Hj as [_ <-].
           now apply npfloat_le_refl.
Qed.

(** On a non-empty array without NaN, [np.argmax] returns an index that
    holds the maximum. *)
Lemma npfloat_argmax_max (arr : list npfloat.t) :
  arr <> [] -> Forall (fun x => npfloat.isnan x = false) arr ->
  exists r v,
    npfloat.argmax arr = Ok r /\ arr !! r = Some v /\
    forall j x, arr !! j = Some x -> npfloat.le x v = true.
Proof.
  destruct arr as [|x rest]; [done|]. intros _ Hnn.
  apply Forall_cons in Hnn as [Hx Hnn].
  destruct (npfloat_argmax_from_max rest [x] 0 x Hnn Hx eq_refl)
    as (v & Hv & Hmax).
  { intros [|j] y Hj; [|done]. injection Hj as <-.
    now apply npfloat_le_refl. }
  eexists _, v. split; [reflexivity|]. split; [exact Hv|exact Hmax].
Qed.

End FloatArgmax.

Section UCBChoose.
Context {P : Type}.
Implicit Types agent : Agent.state P.



End UCBChoose.



(** A policy built with [c = 0] fails when it is used: [choose] raises
    ZeroDivisionError on every agent. *)
Theorem ucb_zero_c_raises {P : Type} (pick : nat) (self : UCBPolicy.state)
    (agent : Agent.state P) :
  UCBPolicy.c self = 0 ->
  UCBPolicy.__init__ 0 = Ok self /\
  UCBPolicy.choose pick self agent = Raise ZeroDivisionError.
Proof.
  destruct self as [c0]. cbn. intros ->. split; [done|].
  unfold UCBPolicy.choose, UCBPolicy.q.
  now rewrite ucb_zero_c_fails_in_choose.
Qed.

Lemma ucb_zero_c_raises_witness :
  UCBPolicy.__init__ 0 = Ok (UCBPolicy.mk 0) /\
  UCBPolicy.choose 0 (UCBPolicy.mk 0) (Agent.__init__ 2 Policy.mk 0 None)
    = Raise ZeroDivisionError.
Proof.
  apply (ucb_zero_c_raises 0 (UCBPolicy.mk 0)
           (Agent.__init__ 2 Policy.mk 0 None)).
  reflexivity.
Defined.

Section UCBStart.
Context {P : Type}.
Implicit Types agent : Agent.state P.

(** While [t = 0] the dividend is [ln 1 = 0]: the quotient is 0 or NaN,
    and the bonus is 0 for every arm. *)
Lemma ucb_bonus_at_start (p : R) (n : nat) :
  0 < p ->
  npfloat.power
    (if npfloat.isnan (npfloat.true_divide (ln (INR (0 + 1))) (INR n))
     then npfloat.Fin 0
     else npfloat.true_divide (ln (INR (0 + 1))) (INR n)) p
  = npfloat.Fin 0.
Proof.
  intros Hp. change (INR (0 + 1)) with 1. rewrite ln_1.
  unfold npfloat.true_divide.
  destruct (Req_dec_T (INR n) 0) as [Hz|Hz].
  - destruct (Req_dec_T 0 0); [|done]. cbn [npfloat.isnan].
    now apply power_zero_pos.
  - cbn [npfloat.isnan]. replace (0 / INR n) with 0 by (now field).
    now apply power_zero_pos.
Qed.

Lemma ucb_q_at_start (self : UCBPolicy.state) agent :
  0 < UCBPolicy.c self -> Agent.wf agent -> Agent.t agent = 0%nat ->
  UCBPolicy.q self agent = Ok (npfloat.Fin <$> Agent.value_estimates agent).
Proof.
  intros Hc [Hv Ha] Ht. destruct (inv_c_pos self Hc) as [Hinv Hp].
  unfold UCBPolicy.q, UCBPolicy.exploration. cbv zeta.
  rewrite Hinv, !bind_ret, Ht. f_equal. apply list_eq. intros i.
  rewrite lookup_zip_with, !list_lookup_fmap.
  destruct (Agent.value_estimates agent !! i) as [v|] eqn:Hvi; [|done].
  assert (i < length (Agent.action_attempts agent))%nat as Hlt
    by (apply lookup_lt_Some in Hvi; lia).
  destruct (lookup_lt_is_Some_2 _ _ Hlt) as [n Hn]. rewrite Hn.
  cbn [fmap option_fmap option_map mbind option_bind].
  rewrite ucb_bonus_at_start by done. cbn. now rewrite Rplus_0_r.
Qed.

End UCBStart.

(** Before the first observation ([t = 0]) the bonus is 0 for every arm,
    so for [c > 0] the policy is greedy on the estimates: it returns an arm
    whose estimate is the maximum. *)
Theorem ucb_is_greedy_before_first_observation {P : Type} (pick : nat)
    (self : UCBPolicy.state) (agent : Agent.state P) :
  0 < UCBPolicy.c self -> Agent.wf agent -> Agent.t agent = 0%nat ->
  (1 <= Agent.k agent)%nat ->
  exists a v,
    UCBPolicy.choose pick self agent = Ok (self, Some a) /\
    Agent.value_estimates agent !! a = Some v /\
    forall j x, Agent.value_estimates agent !! j = Some x -> x <= v.
Proof.
  intros Hc Hwf Ht Hk. pose proof (ucb_q_at_start self agent Hc Hwf Ht) as Hq.
  destruct Hwf as [Hv _].
  set (qs := npfloat.Fin <$> Agent.value_estimates agent) in *.
  assert (forall j y, qs !! j = Some y ->
            exists x, y = npfloat.Fin x /\
                      Agent.value_estimates agent !! j = Some x) as Hqs.
  { intros j y Hj. unfold qs in Hj. rewrite list_lookup_fmap in Hj.
    destruct (Agent.value_estimates agent !! j) as [x|]; [|done].
    injection Hj as <-. eauto. }
  destruct (npfloat_argmax_max qs) as (r & w & Hr & Hw & Hmax).
  { unfold qs. destruct (Agent.value_estimates agent); [cbn in Hv; lia|done]. }
  { apply Forall_lookup. intros j y Hj.
    destruct (Hqs j y Hj) as (x & -> & _). done. }
  destruct (Hqs r w Hw) as (v & -> & Hvr).
  unfold UCBPolicy.choose. rewrite Hq, bind_ret, Hr, bind_ret.
  unfold np.getitem. rewrite Hw, bind_ret.
  destruct (break_ties_elem pick r
              (np.where_ (npfloat.eq (npfloat.Fin v)) qs)) as (a & Hbt & Hin).
  { apply elem_of_where. exists (npfloat.Fin v). split; [done|]. cbn.
    destruct (Req_dec_T v v); done. }
  rewrite Hbt, bind_ret. exists a, v. split; [done|].
  apply elem_of_where in Hin as (y & Hy & Heq).
  destruct (Hqs a y Hy) as (x & -> & Hxa). cbn in Heq.
  destruct (Req_dec_T x v) as [->|]; [|done]. split; [done|].
  intros j x Hj.
  assert (qs !! j = Some (npfloat.Fin x)) as Hqj
    by (unfold qs; now rewrite list_lookup_fmap, Hj).
  pose proof (Hmax j _ Hqj) as Hle. cbn in Hle.
  destruct (Rle_dec x v); done.
Qed.

Lemma ucb_is_greedy_before_first_observation_witness :
  exists a v,
    UCBPolicy.choose 5 (UCBPolicy.mk 2) (Agent.__init__ 3 Policy.mk 7 None)
      = Ok (UCBPolicy.mk 2, Some a) /\
    [7; 7; 7] !! a = Some v /\
    forall j x, [7; 7; 7] !! j = Some x -> x <= v.
Proof.
  apply (ucb_is_greedy_before_first_observation 5 (UCBPolicy.mk 2)
           (Agent.__init__ 3 Policy.mk 7 None)).
  - cbn. lra.
  - apply init_wf.
  - reflexivity.
  - cbn. lia.
Defined.

(** ** SoftmaxPolicy.choose and the softmax probabilities *)

Section SoftmaxFacts.

Lemma elem_le_sum (l : list R) (x : R) :
  Forall (fun y => 0 <= y) l -> x ∈ l -> x <= np.sum l.
Proof.
  induction l as [|y l IH]; intros Hpos Hin.
  - by apply not_elem_of_nil in Hin.
  - apply Forall_cons in Hpos as [Hy Hpos]. rewrite sum_cons.
    assert (0 <= np.sum l) as Hs.
    { clear -Hpos. induction Hpos as [|z l Hz _ IH']; [cbn; lra|].
      rewrite sum_cons. lra. }
    apply elem_of_cons in Hin as [->|Hin]; [lra|].
    specialize (IH Hpos Hin). lra.
Qed.



End SoftmaxFacts.

(** The softmax of a non-empty array of preferences is a probability
    distribution: every entry lies in (0, 1] and the entries add up to 1. *)
Theorem softmax_is_a_distribution (h : list R) :
  h <> [] ->
  length (GradientAgent.softmax h) = length h /\
  Forall (fun p => 0 < p <= 1) (GradientAgent.softmax h) /\
  np.sum (GradientAgent.softmax h) = 1.
Proof.
  intros Hne. split; [apply length_softmax|]. split; [|now apply sum_softmax].
  unfold GradientAgent.softmax. cbv zeta.
  pose proof (sum_exp_pos h Hne) as Hs.
  apply Forall_fmap, Forall_forall. intros e He. cbn.
  assert (0 < e) as Hpos.
  { apply list_elem_of_fmap in He as (x & -> & _). apply exp_pos. }
  assert (e <= np.sum (exp <$> h)) as Hle.
  { apply elem_le_sum; [|done]. apply Forall_fmap, Forall_forall.
    intros x _. cbn. pose proof (exp_pos x). lra. }
  split.
  - now apply Rdiv_lt_0_compat.
  - apply (Rmult_le_reg_r (np.sum (exp <$> h))); [done|].
    unfold Rdiv. rewrite Rmult_assoc, Rinv_l by lra. lra.
Qed.

Lemma softmax_is_a_distribution_witness :
  length (GradientAgent.softmax [0; 1; -2]) = 3%nat /\
  Forall (fun p => 0 < p <= 1) (GradientAgent.softmax [0; 1; -2]) /\
  np.sum (GradientAgent.softmax [0; 1; -2]) = 1.
Proof. apply (softmax_is_a_distribution [0; 1; -2]). discriminate. Defined.



(** Over zero arms the cumulative array is empty and [choose] raises
    IndexError, whatever the draw. *)
Theorem softmax_choose_no_arms_raises {P : Type} (s : R)
    (self : SoftmaxPolicy.state) (agent : Agent.state P) :
  Agent.value_estimates agent = [] ->
  SoftmaxPolicy.choose s self agent = Raise IndexError.
Proof. intros Hnil. unfold SoftmaxPolicy.choose. now rewrite Hnil. Qed.

Lemma softmax_choose_no_arms_raises_witness :
  SoftmaxPolicy.choose (1 / 2) SoftmaxPolicy.mk
    (Agent.__init__ 0 Policy.mk 0 None) = Raise IndexError.
Proof.
  apply (softmax_choose_no_arms_raises (1 / 2) SoftmaxPolicy.mk
           (Agent.__init__ 0 Policy.mk 0 None)).
  reflexivity.
Defined.

(** ** The base Agent over a whole run *)

Section AgentRuns.
Context {P : Type} `{!Agent.Policy P}.
Implicit Types self : Agent.state P.

Lemma sum_nat_alter_S (l : list nat) : forall a : nat,
  (a < length l)%nat -> np.sum_nat (alter S a l) = S (np.sum_nat l).
Proof.
  induction l as [|x l IH]; intros [|a] Ha; cbn in *; try lia.
  fold (np.sum_nat (alter S a l)). fold (np.sum_nat l).
  rewrite IH by lia. lia.
Qed.

Lemma sum_nat_replicate_0 (n : nat) : np.sum_nat (replicate n 0%nat) = 0%nat.
Proof. induction n as [|n IH]; [done|]. cbn. exact IH. Qed.

(** One step of the loop: what it keeps and what it counts. *)
Lemma agent_step_inv self self1 self2 action (reward : R) :
  Agent.wf self ->
  Agent.choose self = Ok (self1, action) ->
  Agent.observe self1 reward = Ok self2 ->
  Agent.wf self2 /\
  Agent.k self2 = Agent.k self /\
  Agent.prior self2 = Agent.prior self /\
  Agent.gamma self2 = Agent.gamma self /\
  Agent.t self2 = S (Agent.t self) /\
  (is_Some action ->
   np.sum_nat (Agent.action_attempts self2)
     = S (np.sum_nat (Agent.action_attempts self))).
Proof.
  intros Hwf Hch Hobs. pose proof (choose_wf _ _ _ Hwf Hch) as Hwf1.
  pose proof (observe_wf _ _ _ Hwf1 Hobs) as Hwf2.
  apply choose_inv in Hch as (pol & _ & ->).
  apply observe_inv in Hobs as (attempts & estimates & H1 & _ & ->).
  cbn in *. repeat split; try done; try apply Hwf2.
  intros [a ->]. cbn in H1. case_decide; [|discriminate].
  injection H1 as <-. now apply sum_nat_alter_S.
Qed.

Lemma agent_run_inv (rewards : list R) : forall self self' actions,
  Agent.wf self ->
  Environment.run Agent.choose Agent.observe self rewards
    = Ok (self', actions) ->
  Agent.wf self' /\
  Agent.k self' = Agent.k self /\
  Agent.prior self' = Agent.prior self /\
  Agent.gamma self' = Agent.gamma self /\
  Agent.t self' = (Agent.t self + length rewards)%nat /\
  (Forall is_Some actions ->
   np.sum_nat (Agent.action_attempts self')
     = (np.sum_nat (Agent.action_attempts self) + length rewards)%nat).
Proof.
  induction rewards as [|reward rest IH]; intros self self' actions Hwf Hrun.
  - injection Hrun as <- <-. cbn. repeat split; try apply Hwf; lia.
  - apply run_cons_inv in Hrun
      as (self1 & action & self2 & actions' & Hch & Hobs & Hrest & ->).
    destruct (agent_step_inv _ _ _ _ _ Hwf Hch Hobs)
      as (Hwf2 & Hk & Hp & Hg & Ht & Hsum).
    destruct (IH _ _ _ Hwf2 Hrest) as (Hwf' & Hk' & Hp' & Hg' & Ht' & Hsum').
    cbn [length]. repeat split; try apply Hwf'; try congruence; try lia.
    intros Hall. apply Forall_cons in Hall as [Ha Hall].
    rewrite (Hsum' Hall), (Hsum Ha). lia.
Qed.

End AgentRuns.

(** The counters of a run.  After any run of the loop from a fresh agent
    that returned, with any policy: the arrays still have [k] cells, [t] is
    the number of rewards observed, one arm was recorded per reward, and,
    when every recorded action is an arm, the attempt counts add up to
    [t]. *)
Theorem agent_run_counts_observations {P : Type} `{!Agent.Policy P}
    (kk : nat) (pol : P) (prior0 : R) (gamma0 : option R) (rewards : list R)
    (self' : Agent.state P) (actions : list (option nat)) :
  Environment.run Agent.choose Agent.observe
    (Agent.__init__ kk pol prior0 gamma0) rewards = Ok (self', actions) ->
  length (Agent.value_estimates self') = kk /\
  length (Agent.action_attempts self') = kk /\
  Agent.k self' = kk /\
  Agent.t self' = length rewards /\
  length actions = length rewards /\
  (Forall is_Some actions ->
   np.sum_nat (Agent.action_attempts self') = Agent.t self').
Proof.
  intros Hrun. pose proof (run_length _ _ _ _ _ _ Hrun) as Hlen.
  destruct (agent_run_inv _ _ _ _ (init_wf kk pol prior0 gamma0) Hrun)
    as ([Hv Ha] & Hk & _ & _ & Ht & Hsum).
  cbn in Hk, Ht. rewrite Hk in Hv, Ha. repeat split; try done.
  intros Hall. rewrite (Hsum Hall), Ht.
  cbn [Agent.__init__ Agent.action_attempts Agent.t]. unfold np.full.
  now rewrite sum_nat_replicate_0.
Qed.

Lemma agent_run_counts_observations_witness :
  let round_robin : Agent.Policy unit :=
    fun pol agent => Ok (pol, Some (Agent.t agent)) in
  exists self',
    Environment.run Agent.choose Agent.observe
      (Agent.__init__ 3 () 2 None) [5; 6]
      = Ok (self', [Some 0; Some 1]%nat) /\
    length (Agent.value_estimates self') = 3%nat /\
    length (Agent.action_attempts self') = 3%nat /\
    Agent.k self' = 3%nat /\
    Agent.t self' = 2%nat /\
    2%nat = 2%nat /\
    (Forall is_Some [Some 0; Some 1]%nat ->
     np.sum_nat (Agent.action_attempts self') = Agent.t self').
Proof.
  intros round_robin. eexists. split; [vm_compute; reflexivity|].
  apply (agent_run_counts_observations 3 () 2 None [5; 6] _
           [Some 0; Some 1]%nat).
  vm_compute. reflexivity.
Defined.

(** [reset] after a run gives back the agent as constructed, with the
    policy object as the run left it: estimates at the prior, counts and
    [t] at 0, no last action, [k], [prior] and [gamma] untouched. *)
Theorem agent_reset_after_run {P : Type} `{!Agent.Policy P}
    (kk : nat) (pol : P) (prior0 : R) (gamma0 : option R) (rewards : list R)
    (self' : Agent.state P) (actions : list (option nat)) :
  Environment.run Agent.choose Agent.observe
    (Agent.__init__ kk pol prior0 gamma0) rewards = Ok (self', actions) ->
  Agent.reset self' = Agent.__init__ kk (Agent.policy self') prior0 gamma0.
Proof.
  intros Hrun.
  destruct (agent_run_inv _ _ _ _ (init_wf kk pol prior0 gamma0) Hrun)
    as (Hwf & Hk & Hp & Hg & _).
  rewrite Agent_reset_init by done. cbn in Hk, Hp, Hg. congruence.
Qed.

Lemma agent_reset_after_run_witness :
  let round_robin : Agent.Policy unit :=
    fun pol agent => Ok (pol, Some (Agent.t agent)) in
  exists self',
    Environment.run Agent.choose Agent.observe
      (Agent.__init__ 3 () 2 (Some (1 / 2))) [5; 6]
      = Ok (self', [Some 0; Some 1]%nat) /\
    Agent.reset self'
      = Agent.__init__ 3 (Agent.policy self') 2 (Some (1 / 2)).
Proof.
  intros round_robin. eexists. split; [vm_compute; reflexivity|].
  apply (agent_reset_after_run 3 () 2 (Some (1 / 2)) [5; 6] _
           [Some 0; Some 1]%nat).
  vm_compute. reflexivity.
Defined.

Section SampleMean.
Context {P : Type} `{!Agent.Policy P}.
Implicit Types self : Agent.state P.



End SampleMean.



(** ** GradientAgent over a whole run *)

Section GradientRuns.
Context {P : Type} `{!Agent.Policy P}.
Implicit Types self : GradientAgent.state P.

Lemma gradient_observe_inv self (reward : R) self' :
  GradientAgent.observe self reward = Ok self' ->
  exists attempts estimates average,
    np.iupdate (fun _ c => S c) (Agent.last_action (GradientAgent.base self))
      (Agent.action_attempts (GradientAgent.base self)) = Ok attempts /\
    average =
      (if GradientAgent.baseline self then
         GradientAgent.average_reward self
           + 1 / INR (np.sum_nat attempts)
             * (reward - GradientAgent.average_reward self)
       else GradientAgent.average_reward self) /\
    GradientAgent.update_preferences
      (GradientAgent.alpha self * (reward - average))
      (Agent.last_action (GradientAgent.base self))
      (Agent.value_estimates (GradientAgent.base self)) = Ok estimates /\
    self' =
      GradientAgent.mk
        (Agent.mk (Agent.policy (GradientAgent.base self))
           (Agent.k (GradientAgent.base self))
           (Agent.prior (GradientAgent.base self))
           (Agent.gamma (GradientAgent.base self))
           estimates attempts (S (Agent.t (GradientAgent.base self)))
           (Agent.last_action (GradientAgent.base self)))
        (GradientAgent.alpha self) (GradientAgent.baseline self) average.
Proof.
  unfold GradientAgent.observe. cbv zeta. intros Hobs.
  apply bind_Ok in Hobs as (attempts & Ha & Hobs).
  apply bind_Ok in Hobs as (estimates & He & Hobs).
  injection Hobs as <-. eauto 10.
Qed.

Lemma gradient_choose_inv self self' action :
  GradientAgent.choose self = Ok (self', action) ->
  exists pol,
    self' =
      GradientAgent.mk
        (Agent.mk pol (Agent.k (GradientAgent.base self))
           (Agent.prior (GradientAgent.base self))
           (Agent.gamma (GradientAgent.base self))
           (Agent.value_estimates (GradientAgent.base self))
           (Agent.action_attempts (GradientAgent.base self))
           (Agent.t (GradientAgent.base self)) action)
        (GradientAgent.alpha self) (GradientAgent.baseline self)
        (GradientAgent.average_reward self).
Proof.
  unfold GradientAgent.choose. intros Hch.
  apply bind_Ok in Hch as ([b act] & Hc & Hr). cbn in Hr.
  injection Hr as <- <-. apply choose_inv in Hc as (pol & _ & ->). eauto.
Qed.

(** The preference update keeps the shape, and with an integer index the
    sum. *)
Lemma update_preferences_length (d : R) (idx : option nat) (h h' : list R) :
  GradientAgent.update_preferences d idx h = Ok h' -> length h' = length h.
Proof.
  unfold GradientAgent.update_preferences. cbv zeta.
  pose proof (length_softmax h) as Hl. destruct idx as [a|].
  - intros Hu. apply bind_Ok in Hu as (h_a & _ & Hu).
    apply bind_Ok in Hu as (pi_a & _ & Hu). injection Hu as <-.
    rewrite length_insert, length_zip_with. lia.
  - intros [= <-]. rewrite length_zip_with. lia.
Qed.

Lemma update_preferences_sum (d : R) (a : nat) (h h' : list R) :
  GradientAgent.update_preferences d (Some a) h = Ok h' ->
  np.sum h' = np.sum h.
Proof.
  unfold GradientAgent.update_preferences, np.getitem. cbv zeta.
  pose proof (length_softmax h) as Hl.
  destruct (h !! a) as [h_a|] eqn:Hh; [|discriminate].
  destruct (GradientAgent.softmax h !! a) as [pi_a|] eqn:Hpi; [|discriminate].
  rewrite !bind_ret. intros [= <-].
  assert (zip_with (fun v p => v - d * p) h (GradientAgent.softmax h) !! a
          = Some (h_a - d * pi_a)) as Hza
    by (rewrite lookup_zip_with, Hh, Hpi; done).
  rewrite (sum_insert _ _ a _ Hza), sum_zip_with_sub by done.
  rewrite sum_softmax; [ring|]. intros ->. done.
Qed.

Lemma gradient_step_inv self self1 self2 action (reward : R) :
  Agent.wf (GradientAgent.base self) ->
  GradientAgent.choose self = Ok (self1, action) ->
  GradientAgent.observe self1 reward = Ok self2 ->
  let b := GradientAgent.base self in
  let b2 := GradientAgent.base self2 in
  Agent.wf b2 /\
  Agent.k b2 = Agent.k b /\ Agent.prior b2 = Agent.prior b /\
  Agent.gamma b2 = Agent.gamma b /\
  GradientAgent.alpha self2 = GradientAgent.alpha self /\
  GradientAgent.baseline self2 = GradientAgent.baseline self /\
  (is_Some action ->
   np.sum_nat (Agent.action_attempts b2)
     = S (np.sum_nat (Agent.action_attempts b)) /\
   np.sum (Agent.value_estimates b2) = np.sum (Agent.value_estimates b) /\
   GradientAgent.average_reward self2 =
     (if GradientAgent.baseline self then
        GradientAgent.average_reward self
          + 1 / INR (S (np.sum_nat (Agent.action_attempts b)))
            * (reward - GradientAgent.average_reward self)
      else GradientAgent.average_reward self)).
Proof.
  intros [Hv Ha] Hch Hobs b b2. subst b b2.
  apply gradient_choose_inv in Hch as (pol & ->).
  apply gradient_observe_inv in Hobs
    as (attempts & estimates & average & H1 & Havg & H2 & ->).
  cbn [GradientAgent.base GradientAgent.alpha GradientAgent.baseline
       GradientAgent.average_reward Agent.last_action Agent.action_attempts
       Agent.value_estimates Agent.k Agent.prior Agent.gamma] in *.
  pose proof (iupdate_length _ _ _ _ H1) as Hl1.
  pose proof (update_preferences_length _ _ _ _ H2) as Hl2.
  split; [split; cbn; congruence|]. do 5 (split; [done|]).
  intros [a ->]. cbn in H1. case_decide; [|discriminate].
  injection H1 as <-. rewrite sum_nat_alter_S in * by done.
  split; [done|]. split; [|done]. now apply update_preferences_sum in H2.
Qed.

Lemma gradient_run_inv (rewards : list R) : forall self self' actions,
  Agent.wf (GradientAgent.base self) ->
  gradient_run self rewards = Ok (self', actions) ->
  let b := GradientAgent.base self in
  let b' := GradientAgent.base self' in
  Agent.wf b' /\
  Agent.k b' = Agent.k b /\ Agent.prior b' = Agent.prior b /\
  Agent.gamma b' = Agent.gamma b /\
  GradientAgent.alpha self' = GradientAgent.alpha self /\
  GradientAgent.baseline self' = GradientAgent.baseline self /\
  (Forall is_Some actions ->
   np.sum_nat (Agent.action_attempts b')
     = (np.sum_nat (Agent.action_attempts b) + length rewards)%nat /\
   np.sum (Agent.value_estimates b') = np.sum (Agent.value_estimates b) /\
   (GradientAgent.baseline self = true ->
    INR (np.sum_nat (Agent.action_attempts b'))
      * GradientAgent.average_reward self'
    = INR (np.sum_nat (Agent.action_attempts b))
        * GradientAgent.average_reward self + np.sum rewards) /\
   (GradientAgent.baseline self = false ->
    GradientAgent.average_reward self' = GradientAgent.average_reward self)).
Proof.
  unfold gradient_run.
  induction rewards as [|reward rest IH]; intros self self' actions Hwf Hrun.
  - injection Hrun as <- <-. cbv zeta. split; [done|].
    do 5 (split; [done|]). intros _. split; [cbn [length]; lia|].
    split; [done|]. split; [|done]. intros _. rewrite sum_nil. ring.
  - apply run_cons_inv in Hrun
      as (self1 & action & self2 & actions' & Hch & Hobs & Hrest & ->).
    destruct (gradient_step_inv _ _ _ _ _ Hwf Hch Hobs)
      as (Hwf2 & Hk & Hp & Hg & Hal & Hbl & Hsome).
    destruct (IH _ _ _ Hwf2 Hrest)
      as (Hwf' & Hk' & Hp' & Hg' & Hal' & Hbl' & Hall').
    cbv zeta in *.
    split; [done|]. do 5 (split; [congruence|]).
    intros Hall. apply Forall_cons in Hall as [Ha Hall].
    destruct (Hsome Ha) as (Hs1 & Hs2 & Havg).
    destruct (Hall' Hall) as (Hs1' & Hs2' & Hon & Hoff).
    split; [cbn [length]; lia|]. split; [congruence|]. split.
    + intros Hb. rewrite Hbl in Hon. rewrite (Hon Hb), Hs1, Havg, Hb.
      rewrite sum_cons, !S_INR.
      assert (0 <= INR (np.sum_nat
                (Agent.action_attempts (GradientAgent.base self))))
        by apply pos_INR.
      field. lra.
    + intros Hb. rewrite Hbl in Hoff. rewrite (Hoff Hb), Havg, Hb. done.
Qed.

End GradientRuns.

Lemma sum_replicate (n : nat) (x : R) : np.sum (replicate n x) = INR n * x.
Proof.
  induction n as [|n IH]; [cbn; ring|].
  cbn [replicate]. rewrite sum_cons, IH, S_INR. ring.
Qed.

(** Conservation of the preferences.  After any run of the loop from a
    fresh GradientAgent in which every recorded action is an arm, the
    preferences still add up to [k * prior]: what the chosen arm gains at
    a step the others lose. *)
Theorem gradient_preferences_sum_is_conserved {P : Type} `{!Agent.Policy P}
    (kk : nat) (pol : P) (prior0 alpha0 : R) (baseline0 : bool)
    (rewards : list R) (self' : GradientAgent.state P)
    (actions : list (option nat)) :
  gradient_run (GradientAgent.__init__ kk pol prior0 alpha0 baseline0) rewards
    = Ok (self', actions) ->
  Forall is_Some actions ->
  length (Agent.value_estimates (GradientAgent.base self')) = kk /\
  np.sum (Agent.value_estimates (GradientAgent.base self')) = INR kk * prior0.
Proof.
  intros Hrun Hall.
  destruct (gradient_run_inv rewards _ _ _
              (init_wf kk pol prior0 None : Agent.wf
                 (GradientAgent.base
                    (GradientAgent.__init__ kk pol prior0 alpha0 baseline0)))
              Hrun)
    as ([Hv _] & Hk & _ & _ & _ & _ & Hsome).
  destruct (Hsome Hall) as (_ & Hsum & _).
  split; [rewrite Hv, Hk; done|]. rewrite Hsum. cbn. unfold np.full.
  apply sum_replicate.
Qed.

Lemma gradient_preferences_sum_is_conserved_witness :
  let cyclic : Agent.Policy unit :=
    fun pol agent => Ok (pol, Some (Agent.t agent mod 2)%nat) in
  exists self',
    gradient_run (GradientAgent.__init__ 2 () 3 (1 / 10) true) [1; 0; 1]
      = Ok (self', [Some 0; Some 1; Some 0]%nat) /\
    length (Agent.value_estimates (GradientAgent.base self')) = 2%nat /\
    np.sum (Agent.value_estimates (GradientAgent.base self')) = INR 2 * 3.
Proof.
  intros cyclic. eexists. split; [vm_compute; reflexivity|].
  apply (gradient_preferences_sum_is_conserved 2 () 3 (1 / 10) true
           [1; 0; 1] _ [Some 0; Some 1; Some 0]%nat).
  - vm_compute. reflexivity.
  - repeat constructor; eexists; reflexivity.
Defined.



(** [reset] after a run gives back the GradientAgent as constructed (the
    policy object as the run left it): preferences at the prior, counts,
    [t] and the baseline at 0, [alpha] and the baseline flag untouched. *)
Theorem gradient_reset_after_run {P : Type} `{!Agent.Policy P}
    (kk : nat) (pol : P) (prior0 alpha0 : R) (baseline0 : bool)
    (rewards : list R) (self' : GradientAgent.state P)
    (actions : list (option nat)) :
  gradient_run (GradientAgent.__init__ kk pol prior0 alpha0 baseline0) rewards
    = Ok (self', actions) ->
  GradientAgent.reset self'
    = GradientAgent.__init__ kk (Agent.policy (GradientAgent.base self'))
        prior0 alpha0 baseline0.
Proof.
  intros Hrun.
  destruct (gradient_run_inv rewards _ _ _
              (init_wf kk pol prior0 None : Agent.wf
                 (GradientAgent.base
                    (GradientAgent.__init__ kk pol prior0 alpha0 baseline0)))
              Hrun)
    as (Hwf & Hk & Hp & Hg & Hal & Hbl & _).
  cbn in Hk, Hp, Hg, Hal, Hbl.
  rewrite GradientAgent_reset_init by done. congruence.
Qed.

Lemma gradient_reset_after_run_witness :
  let cyclic : Agent.Policy unit :=
    fun pol agent => Ok (pol, Some (Agent.t agent mod 2)%nat) in
  exists self',
    gradient_run (GradientAgent.__init__ 2 () 3 (1 / 10) true) [1; 0; 1]
      = Ok (self', [Some 0; Some 1; Some 0]%nat) /\
    GradientAgent.reset self'
      = GradientAgent.__init__ 2 (Agent.policy (GradientAgent.base self'))
          3 (1 / 10) true.
Proof.
  intros cyclic. eexists. split; [vm_compute; reflexivity|].
  apply (gradient_reset_after_run 2 () 3 (1 / 10) true
           [1; 0; 1] _ [Some 0; Some 1; Some 0]%nat).
  vm_compute. reflexivity.
Defined.

(** ** BetaAgent over a whole run *)

Section InvariantOfRun.
Context {A X : Type}.
Variable choose : A -> result (A * option nat).
Variable observe : A -> X -> result A.
Variable I : A -> Prop.
Variable Q : X -> Prop.
Hypothesis choose_keeps : forall a a' action,
  I a -> choose a = Ok (a', action) -> I a'.
Hypothesis observe_keeps : forall a x a',
  I a -> Q x -> observe a x = Ok a' -> I a'.

(** A property kept by [choose] and by [observe] is kept by the loop. *)
Lemma run_invariant (rewards : list X) : forall a a' actions,
  I a -> Forall Q rewards ->
  Environment.run choose observe a rewards = Ok (a', actions) -> I a'.
Proof.
  induction rewards as [|x rest IH]; intros a a' actions Ha HQ Hrun.
  - now injection Hrun as <- <-.
  - apply Forall_cons in HQ as [Hx HQ].
    apply run_cons_inv in Hrun
      as (a1 & action & a2 & actions' & Hch & Hobs & Hrest & ->).
    eapply IH; [|done|done]. eapply observe_keeps; [|done|done].
    eapply choose_keeps; done.
Qed.

End InvariantOfRun.

(** The cell of an in-place update: changed when the index is [None] or is
    this cell, kept otherwise. *)
Lemma iupdate_lookup {A : Type} (f : nat -> A -> A) (idx : option nat)
    (arr arr' : list A) (i : nat) :
  np.iupdate f idx arr = Ok arr' ->
  arr' !! i =
    if (match idx with None => true | Some a => bool_decide (a = i) end)
    then f i <$> arr !! i else arr !! i.
Proof.
  destruct idx as [a|]; cbn.
  - case_decide; [|discriminate]. intros [= <-].
    rewrite list_lookup_alter. case_bool_decide as Hai.
    + subst a. now rewrite decide_True.
    + now rewrite decide_False.
  - intros [= <-]. apply list_lookup_imap.
Qed.

Lemma iupdate_Forall {A : Type} (f : nat -> A -> A) (idx : option nat)
    (arr arr' : list A) (Q : A -> Prop) :
  np.iupdate f idx arr = Ok arr' ->
  (forall i x, Q x -> Q (f i x)) -> Forall Q arr -> Forall Q arr'.
Proof.
  intros Hup Hf HQ. apply Forall_lookup. intros i y Hy.
  rewrite (iupdate_lookup _ _ _ _ i Hup) in Hy.
  destruct (arr !! i) as [x|] eqn:Hx.
  - pose proof (proj1 (Forall_lookup _ _) HQ i x Hx) as HQx.
    destruct (match idx with None => true | Some a => bool_decide (a = i) end);
      cbn in Hy; injection Hy as <-; auto.
  - destruct (match idx with None => true | Some a => bool_decide (a = i) end);
      cbn in Hy; discriminate.
Qed.

Section BetaRuns.
Context {P : Type} `{!Agent.Policy P}.
Implicit Types self : BetaAgent.state P.

Lemma beta_observe_full_inv (sample : list R) self (reward : R) self' :
  BetaAgent.observe sample self reward = Ok self' ->
  exists attempts alpha' beta',
    np.iupdate (fun _ c => S c) (Agent.last_action (BetaAgent.base self))
      (Agent.action_attempts (BetaAgent.base self)) = Ok attempts /\
    np.iupdate (fun _ x => x + reward)
      (Agent.last_action (BetaAgent.base self)) (BetaAgent.alpha self)
      = Ok alpha' /\
    np.iupdate (fun _ x => x + (BetaAgent.n self - reward))
      (Agent.last_action (BetaAgent.base self)) (BetaAgent.beta self)
      = Ok beta' /\
    self' =
      BetaAgent.mk
        (Agent.mk (Agent.policy (BetaAgent.base self))
           (Agent.k (BetaAgent.base self))
           (Agent.prior (BetaAgent.base self))
           (Agent.gamma (BetaAgent.base self))
           (if BetaAgent.ts self then sample
            else zip_with (fun a b => a / (a + b)) alpha' beta')
           attempts (S (Agent.t (BetaAgent.base self)))
           (Agent.last_action (BetaAgent.base self)))
        (BetaAgent.n self) (BetaAgent.ts self) alpha' beta'.
Proof.
  unfold BetaAgent.observe. cbv zeta. intros Hobs.
  apply bind_Ok in Hobs as (attempts & Ha & Hobs).
  apply bind_Ok in Hobs as (alpha' & Hal & Hobs).
  apply bind_Ok in Hobs as (beta' & Hbe & Hobs).
  injection Hobs as <-. eauto 10.
Qed.

Lemma beta_choose_full_inv self self' action :
  BetaAgent.choose self = Ok (self', action) ->
  exists pol,
    self' =
      BetaAgent.mk
        (Agent.mk pol (Agent.k (BetaAgent.base self))
           (Agent.prior (BetaAgent.base self))
           (Agent.gamma (BetaAgent.base self))
           (Agent.value_estimates (BetaAgent.base self))
           (Agent.action_attempts (BetaAgent.base self))
           (Agent.t (BetaAgent.base self)) action)
        (BetaAgent.n self) (BetaAgent.ts self)
        (BetaAgent.alpha self) (BetaAgent.beta self).
Proof.
  unfold BetaAgent.choose. intros Hch.
  apply bind_Ok in Hch as ([b act] & Hc & Hr). cbn in Hr.
  injection Hr as <- <-. apply choose_inv in Hc as (pol & _ & ->). eauto.
Qed.

Lemma beta_choose_keeps_inv (kk : nat) (nn : R) (ts0 : bool) self self' action :
  beta_inv kk nn ts0 self -> BetaAgent.choose self = Ok (self', action) ->
  beta_inv kk nn ts0 self'.
Proof. intros Hinv Hch. apply beta_choose_full_inv in Hch as (pol & ->). exact Hinv. Qed.

Lemma beta_observe_keeps_inv (kk : nat) (nn : R) (ts0 : bool) self
    (x : list R * R) self' :
  beta_inv kk nn ts0 self ->
  (ts0 = true -> length x.1 = kk) ->
  beta_observe self x = Ok self' ->
  beta_inv kk nn ts0 self'.
Proof.
  intros ([Hv Ha] & Hk & Hp & Hg & Hn & Hts & Hla & Hlb & Hsum) Hx Hobs.
  apply beta_observe_full_inv in Hobs
    as (attempts & alpha' & beta' & H1 & H2 & H3 & ->).
  pose proof (iupdate_length _ _ _ _ H1) as Hl1.
  pose proof (iupdate_length _ _ _ _ H2) as Hl2.
  pose proof (iupdate_length _ _ _ _ H3) as Hl3.
  unfold beta_inv.
  cbn [BetaAgent.base BetaAgent.n BetaAgent.ts BetaAgent.alpha BetaAgent.beta
       Agent.k Agent.prior Agent.gamma Agent.action_attempts].
  split.
  { split; cbn; [|lia]. rewrite Hts. destruct ts0.
    - rewrite Hx by done. lia.
    - rewrite length_zip_with. lia. }
  do 5 (split; [done|]). split; [lia|]. split; [lia|].
  intros i a b c Hai Hbi Hci.
  rewrite (iupdate_lookup _ _ _ _ i H1) in Hci.
  rewrite (iupdate_lookup _ _ _ _ i H2) in Hai.
  rewrite (iupdate_lookup _ _ _ _ i H3) in Hbi.
  destruct (BetaAgent.alpha self !! i) as [a0|] eqn:Ha0;
    [|destruct (match Agent.last_action (BetaAgent.base self) with
                | Some a1 => bool_decide (a1 = i) | None => true end);
      discriminate].
  destruct (BetaAgent.beta self !! i) as [b0|] eqn:Hb0;
    [|destruct (match Agent.last_action (BetaAgent.base self) with
                | Some a1 => bool_decide (a1 = i) | None => true end);
      discriminate].
  destruct (Agent.action_attempts (BetaAgent.base self) !! i) as [c0|] eqn:Hc0;
    [|destruct (match Agent.last_action (BetaAgent.base self) with
                | Some a1 => bool_decide (a1 = i) | None => true end);
      discriminate].
  pose proof (Hsum i a0 b0 c0 Ha0 Hb0 Hc0) as Hold.
  destruct (match Agent.last_action (BetaAgent.base self) with
            | Some a1 => bool_decide (a1 = i) | None => true end);
    cbn in Hai, Hbi, Hci; injection Hai as <-; injection Hbi as <-;
    injection Hci as <-; [|done].
  rewrite S_INR, Hn. lra.
Qed.

Lemma beta_init_inv (kk : nat) (nn : R) (pol : P) (ts0 : bool) :
  beta_inv kk nn ts0 (BetaAgent.__init__ kk nn pol ts0).
Proof.
  split; [apply init_wf|]. do 5 (split; [done|]).
  cbn. unfold np.full. rewrite !length_replicate. do 2 (split; [done|]).
  intros i x y c Hx Hy Hc.
  apply lookup_replicate_1 in Hx as [-> _].
  apply lookup_replicate_1 in Hy as [-> _].
  apply lookup_replicate_1 in Hc as [-> _]. cbn. ring.
Qed.

Lemma beta_choose_keeps_proper (nn : R) self self' action :
  BetaAgent.n self = nn /\ beta_proper self ->
  BetaAgent.choose self = Ok (self', action) ->
  BetaAgent.n self' = nn /\ beta_proper self'.
Proof. intros Hinv Hch. apply beta_choose_full_inv in Hch as (pol & ->). exact Hinv. Qed.

Lemma beta_observe_keeps_proper (nn : R) self (x : list R * R) self' :
  BetaAgent.n self = nn /\ beta_proper self ->
  0 <= x.2 <= nn ->
  beta_observe self x = Ok self' ->
  BetaAgent.n self' = nn /\ beta_proper self'.
Proof.
  intros (Hn & Hal & Hbe) Hx Hobs.
  apply beta_observe_full_inv in Hobs
    as (attempts & alpha' & beta' & _ & H2 & H3 & ->).
  split; [done|]. split; cbn.
  - apply (iupdate_Forall _ _ _ _ _ H2); [|done]. intros _ y Hy. lra.
  - apply (iupdate_Forall _ _ _ _ _ H3); [|done]. intros _ y Hy. lra.
Qed.

End BetaRuns.

(** Conservation of the posterior.  After any run of the loop from a fresh
    BetaAgent (in Thompson mode with draws of [k] values), for every arm
    [alpha + beta = 2 + n * attempts]: each observation adds [reward] to
    one parameter and [n - reward] to the other, whatever the reward. *)
Theorem beta_posterior_counts_trials {P : Type} `{!Agent.Policy P}
    (kk : nat) (nn : R) (pol : P) (ts0 : bool)
    (observations : list (list R * R)) (self' : BetaAgent.state P)
    (actions : list (option nat)) :
  beta_run (BetaAgent.__init__ kk nn pol ts0) observations
    = Ok (self', actions) ->
  Forall (fun x => ts0 = true -> length x.1 = kk) observations ->
  length (BetaAgent.alpha self') = kk /\
  length (BetaAgent.beta self') = kk /\
  forall i a b c,
    BetaAgent.alpha self' !! i = Some a ->
    BetaAgent.beta self' !! i = Some b ->
    Agent.action_attempts (BetaAgent.base self') !! i = Some c ->
    a + b = 2 + nn * INR c.
Proof.
  intros Hrun Hobs.
  pose proof (run_invariant BetaAgent.choose beta_observe
                (beta_inv kk nn ts0)
                (fun x => ts0 = true -> length x.1 = kk)
                (beta_choose_keeps_inv kk nn ts0)
                (beta_observe_keeps_inv kk nn ts0)
                observations _ _ _ (beta_init_inv kk nn pol ts0) Hobs Hrun)
    as (_ & _ & _ & _ & _ & _ & Hla & Hlb & Hsum).
  eauto.
Qed.

Lemma beta_posterior_counts_trials_witness :
  exists self',
    beta_run (BetaAgent.__init__ 2 3 Policy.mk false)
      [([], 1); ([], 0); ([], 3)]
      = Ok (self', [Some 0; Some 0; Some 0]%nat) /\
    length (BetaAgent.alpha self') = 2%nat /\
    length (BetaAgent.beta self') = 2%nat /\
    forall i a b c,
      BetaAgent.alpha self' !! i = Some a ->
      BetaAgent.beta self' !! i = Some b ->
      Agent.action_attempts (BetaAgent.base self') !! i = Some c ->
      a + b = 2 + 3 * INR c.
Proof.
  eexists. split; [vm_compute; reflexivity|].
  apply (beta_posterior_counts_trials 2 3 Policy.mk false
           [([], 1); ([], 0); ([], 3)] _ [Some 0; Some 0; Some 0]%nat).
  - vm_compute. reflexivity.
  - repeat constructor; discriminate.
Defined.

(** Proper posteriors.  When every reward lies in [0, n], both parameters
    of every arm stay at least 1 (so positive) throughout any run from a
    fresh BetaAgent.  The code does not check the reward: the bound is a
    precondition. *)
Theorem beta_posterior_stays_proper {P : Type} `{!Agent.Policy P}
    (kk : nat) (nn : R) (pol : P) (ts0 : bool)
    (observations : list (list R * R)) (self' : BetaAgent.state P)
    (actions : list (option nat)) :
  beta_run (BetaAgent.__init__ kk nn pol ts0) observations
    = Ok (self', actions) ->
  Forall (fun x => 0 <= x.2 <= nn) observations ->
  Forall (fun a => 1 <= a) (BetaAgent.alpha self') /\
  Forall (fun b => 1 <= b) (BetaAgent.beta self').
Proof.
  intros Hrun Hobs.
  assert (BetaAgent.n (BetaAgent.__init__ kk nn pol ts0) = nn /\
          beta_proper (BetaAgent.__init__ kk nn pol ts0)) as Hinit.
  { split; [done|]. split; cbn; unfold np.full;
      apply Forall_replicate; lra. }
  apply (run_invariant BetaAgent.choose beta_observe
           (fun s => BetaAgent.n s = nn /\ beta_proper s)
           (fun x => 0 <= x.2 <= nn)
           (beta_choose_keeps_proper nn) (beta_observe_keeps_proper nn)
           observations _ _ _ Hinit Hobs Hrun).
Qed.

Lemma beta_posterior_stays_proper_witness :
  exists self',
    beta_run (BetaAgent.__init__ 2 3 Policy.mk false)
      [([], 1); ([], 0); ([], 3)]
      = Ok (self', [Some 0; Some 0; Some 0]%nat) /\
    Forall (fun a => 1 <= a) (BetaAgent.alpha self') /\
    Forall (fun b => 1 <= b) (BetaAgent.beta self').
Proof.
  eexists. split; [vm_compute; reflexivity|].
  apply (beta_posterior_stays_proper 2 3 Policy.mk false
           [([], 1); ([], 0); ([], 3)] _ [Some 0; Some 0; Some 0]%nat).
  - vm_compute. reflexivity.
  - repeat constructor; cbn; lra.
Defined.

Section BetaMean.
Context {P : Type} `{!Agent.Policy P}.
Implicit Types self : BetaAgent.state P.

(** In posterior-mean mode the estimates a non-empty run leaves are those
    of its last observation: the posterior means. *)
Lemma beta_run_last_estimates (observations : list (list R * R)) :
  forall self self' actions,
  BetaAgent.ts self = false -> observations <> [] ->
  beta_run self observations = Ok (self', actions) ->
  Agent.value_estimates (BetaAgent.base self')
    = zip_with (fun a b => a / (a + b))
        (BetaAgent.alpha self') (BetaAgent.beta self').
Proof.
  unfold beta_run.
  induction observations as [|x rest IH]; intros self self' actions Hts Hne Hrun;
    [done|].
  apply run_cons_inv in Hrun
    as (self1 & action & self2 & actions' & Hch & Hobs & Hrest & ->).
  apply beta_choose_full_inv in Hch as (pol & ->).
  apply beta_observe_full_inv in Hobs
    as (attempts & alpha' & beta' & _ & _ & _ & Hself2).
  cbn [BetaAgent.base BetaAgent.ts BetaAgent.n BetaAgent.alpha BetaAgent.beta
       Agent.policy Agent.k Agent.prior Agent.gamma Agent.t
       Agent.last_action] in Hself2.
  rewrite Hts in Hself2.
  destruct rest as [|y rest].
  - injection Hrest as <- <-. now rewrite Hself2.
  - apply (IH self2 self' actions'); [now rewrite Hself2|done|done].
Qed.

End BetaMean.

(** Posterior-mean mode.  After a non-empty run from a fresh BetaAgent
    built with [ts = False] and rewards in [0, n], every estimate is the
    mean [alpha / (alpha + beta)] of its arm's posterior and lies strictly
    between 0 and 1. *)
Theorem beta_estimates_are_posterior_means {P : Type} `{!Agent.Policy P}
    (kk : nat) (nn : R) (pol : P) (observations : list (list R * R))
    (self' : BetaAgent.state P) (actions : list (option nat)) :
  beta_run (BetaAgent.__init__ kk nn pol false) observations
    = Ok (self', actions) ->
  observations <> [] ->
  Forall (fun x => 0 <= x.2 <= nn) observations ->
  Agent.value_estimates (BetaAgent.base self')
    = zip_with (fun a b => a / (a + b))
        (BetaAgent.alpha self') (BetaAgent.beta self') /\
  Forall (fun v => 0 < v < 1) (Agent.value_estimates (BetaAgent.base self')).
Proof.
  intros Hrun Hne Hobs.
  pose proof (beta_run_last_estimates observations
                (BetaAgent.__init__ kk nn pol false) _ _ eq_refl Hne Hrun)
    as Hest.
  split; [done|]. rewrite Hest.
  assert (BetaAgent.n (BetaAgent.__init__ kk nn pol false) = nn /\
          beta_proper (BetaAgent.__init__ kk nn pol false)) as Hinit.
  { split; [done|]. split; cbn; unfold np.full;
      apply Forall_replicate; lra. }
  destruct (run_invariant BetaAgent.choose beta_observe
              (fun s => BetaAgent.n s = nn /\ beta_proper s)
              (fun x => 0 <= x.2 <= nn)
              (beta_choose_keeps_proper nn) (beta_observe_keeps_proper nn)
              observations _ _ _ Hinit Hobs Hrun) as (_ & Hal & Hbe).
  apply Forall_lookup. intros i v Hv.
  apply lookup_zip_with_Some in Hv as (a & b & -> & Ha & Hb).
  pose proof (proj1 (Forall_lookup _ _) Hal i a Ha) as Ha1.
  pose proof (proj1 (Forall_lookup _ _) Hbe i b Hb) as Hb1.
  cbn in Ha1, Hb1. split.
  - apply Rdiv_lt_0_compat; lra.
  - apply (Rmult_lt_reg_r (a + b)); [lra|].
    unfold Rdiv. rewrite Rmult_assoc, Rinv_l by lra. lra.
Qed.

Lemma beta_estimates_are_posterior_means_witness :
  exists self',
    beta_run (BetaAgent.__init__ 2 3 Policy.mk false)
      [([], 1); ([], 0); ([], 3)]
      = Ok (self', [Some 0; Some 0; Some 0]%nat) /\
    Agent.value_estimates (BetaAgent.base self')
      = zip_with (fun a b => a / (a + b))
          (BetaAgent.alpha self') (BetaAgent.beta self') /\
    Forall (fun v => 0 < v < 1) (Agent.value_estimates (BetaAgent.base self')).
Proof.
  eexists. split; [vm_compute; reflexivity|].
  apply (beta_estimates_are_posterior_means 2 3 Policy.mk
           [([], 1); ([], 0); ([], 3)] _ [Some 0; Some 0; Some 0]%nat).
  - vm_compute. reflexivity.
  - discriminate.
  - repeat constructor; cbn; lra.
Defined.

(** [reset] after a run gives back the BetaAgent as constructed (the policy
    object as the run left it): the uniform posterior, estimates, counts
    and [t] at 0, [n] and the mode untouched. *)
Theorem beta_reset_after_run {P : Type} `{!Agent.Policy P}
    (kk : nat) (nn : R) (pol : P) (ts0 : bool)
    (observations : list (list R * R)) (self' : BetaAgent.state P)
    (actions : list (option nat)) :
  beta_run (BetaAgent.__init__ kk nn pol ts0) observations
    = Ok (self', actions) ->
  Forall (fun x => ts0 = true -> length x.1 = kk) observations ->
  BetaAgent.reset self'
    = BetaAgent.__init__ kk nn (Agent.policy (BetaAgent.base self')) ts0.
Proof.
  intros Hrun Hobs.
  pose proof (run_invariant BetaAgent.choose beta_observe
                (beta_inv kk nn ts0)
                (fun x => ts0 = true -> length x.1 = kk)
                (beta_choose_keeps_inv kk nn ts0)
                (beta_observe_keeps_inv kk nn ts0)
                observations _ _ _ (beta_init_inv kk nn pol ts0) Hobs Hrun)
    as (Hwf & Hk & Hp & Hg & Hn & Hts & _).
  rewrite BetaAgent_reset_init by done. congruence.
Qed.

Lemma beta_reset_after_run_witness :
  exists self',
    beta_run (BetaAgent.__init__ 2 3 Policy.mk true)
      [([1 / 2; 1 / 3], 1); ([1 / 4; 1 / 5], 0)]
      = Ok (self', [Some 0; Some 0]%nat) /\
    BetaAgent.reset self'
      = BetaAgent.__init__ 2 3 (Agent.policy (BetaAgent.base self')) true.
Proof.
  eexists. split; [vm_compute; reflexivity|].
  apply (beta_reset_after_run 2 3 Policy.mk true
           [([1 / 2; 1 / 3], 1); ([1 / 4; 1 / 5], 0)] _
           [Some 0; Some 0]%nat).
  - vm_compute. reflexivity.
  - repeat constructor.
Defined.

(** ** FrequentistAgent: optimize and reset *)

(** [optimize] on at least one arm stores the first arm whose estimate is
    the maximum, and [optimal_choice] then returns it; the counter, the
    round-robin position and the inherited state are not touched. *)
Theorem frequentist_optimize_stores_first_best {P : Type}
    (self : FrequentistAgent.state P) :
  Agent.value_estimates (FrequentistAgent.base self) <> [] ->
  exists self' a,
    FrequentistAgent.optimize self = Ok self' /\
    FrequentistAgent.optimal_choice self' = Some a /\
    first_max (Agent.value_estimates (FrequentistAgent.base self)) a /\
    (a < length (Agent.value_estimates (FrequentistAgent.base self)))%nat /\
    FrequentistAgent.base self' = FrequentistAgent.base self /\
    FrequentistAgent.n self' = FrequentistAgent.n self /\
    FrequentistAgent._last_choice self' = FrequentistAgent._last_choice self.
Proof.
  intros Hne. destruct (argmax_first_max _ Hne) as (a & Ha & Hmax).
  unfold FrequentistAgent.optimize. rewrite Ha, bind_ret.
  eexists _, a. split; [reflexivity|]. split; [done|]. split; [done|].
  split; [now apply first_max_lt|done].
Qed.

Lemma frequentist_optimize_stores_first_best_witness :
  exists self' a,
    FrequentistAgent.optimize
      (FrequentistAgent.mk
         (Agent.mk Policy.mk 3 0 None [1; 4; 4] [1; 1; 1]%nat 3 (Some 2%nat))
         2 3 2 None) = Ok self' /\
    FrequentistAgent.optimal_choice self' = Some a /\
    first_max [1; 4; 4] a /\
    (a < 3)%nat /\
    FrequentistAgent.base self'
      = Agent.mk Policy.mk 3 0 None [1; 4; 4] [1; 1; 1]%nat 3 (Some 2%nat) /\
    FrequentistAgent.n self' = 2%Z /\
    FrequentistAgent._last_choice self' = 2%nat.
Proof.
  apply (frequentist_optimize_stores_first_best
           (FrequentistAgent.mk
              (Agent.mk Policy.mk 3 0 None [1; 4; 4] [1; 1; 1]%nat 3
                 (Some 2%nat)) 2 3 2 None)).
  discriminate.
Defined.

(** [reset] restarts the round-robin: whatever calls were made before, the
    calls of [rand_choice] after a [reset] return call number modulo
    [num_arm + 1], that is 0, 1, ..., [num_arm], 0, ...; and [reset] clears
    the stored optimal choice. *)
Theorem frequentist_reset_restarts_cycle {P : Type}
    (self : FrequentistAgent.state P) (m : nat) :
  (rand_choices m (FrequentistAgent.reset self)).2
    = (fun j => (j mod S (FrequentistAgent.num_arm self))%nat) <$> seq 0 m /\
  FrequentistAgent.optimal_choice (FrequentistAgent.reset self) = None.
Proof.
  split; [|done]. destruct m as [|m]; [done|].
  rewrite rand_choices_S.
  cbn [snd seq fmap list_fmap]. f_equal; [by rewrite Nat.Div0.mod_0_l|].
  rewrite rand_choices_cycle.
  - rewrite <- fmap_S_seq, <- list_fmap_compose.
    apply list_fmap_ext. intros _ j _. done.
  - cbn. lia.
  - cbn. destruct (decide (-1 + 1 > 0)%Z); lia.
Qed.

(** ** FrequentistPolicy: the other horizons *)

(** With horizon 0 the counter equals the horizon at every call, so the
    choice is never frozen: each call recomputes the first maximal arm of
    the estimates as they are then, stores it and returns it, whatever was
    stored before. *)
Theorem frequentist_policy_zero_horizon_recomputes {P : Type}
    (self : FrequentistPolicy.state) (agent : Agent.state P) :
  FrequentistPolicy.n self = FrequentistPolicy.N self ->
  Agent.value_estimates agent <> [] ->
  exists a,
    FrequentistPolicy.choose self agent
      = Ok (FrequentistPolicy.mk (FrequentistPolicy.N self)
              (FrequentistPolicy.n self)
              (FrequentistPolicy._last_choice self) (Some a), Some a) /\
    first_max (Agent.value_estimates agent) a.
Proof.
  intros Hn Hne. destruct (argmax_first_max _ Hne) as (a & Ha & Hmax).
  exists a. split; [|done]. unfold FrequentistPolicy.choose.
  destruct (decide (FrequentistPolicy.n self < FrequentistPolicy.N self)%Z);
    [lia|].
  destruct (decide (FrequentistPolicy.n self = FrequentistPolicy.N self)%Z);
    [|done].
  now rewrite Ha, bind_ret.
Qed.

(** A policy that had stored arm 0: with estimates 1, 4, 2 it returns
    arm 1. *)
Lemma frequentist_policy_zero_horizon_recomputes_witness :
  exists a,
    FrequentistPolicy.choose (FrequentistPolicy.mk 0 0 None (Some 0%nat))
      (Agent.mk Policy.mk 3 0 None [1; 4; 2] [1; 1; 1]%nat 3 (Some 0%nat))
      = Ok (FrequentistPolicy.mk 0 0 None (Some a), Some a) /\
    first_max [1; 4; 2] a.
Proof.
  apply (frequentist_policy_zero_horizon_recomputes
           (FrequentistPolicy.mk 0 0 None (Some 0%nat))
           (Agent.mk Policy.mk 3 0 None [1; 4; 2] [1; 1; 1]%nat 3
              (Some 0%nat))).
  - reflexivity.
  - discriminate.
Defined.

(** With a negative horizon the policy returns [None] at every call and
    stays as constructed; the agent then has no last action, and each step
    of the loop updates every arm: all attempt counts are incremented. *)
Theorem frequentist_policy_negative_horizon (N0 : Z) (reward : R)
    (agent : Agent.state FrequentistPolicy.state) :
  (N0 < 0)%Z ->
  Agent.policy agent = FrequentistPolicy.__init__ N0 ->
  exists agent',
    Environment.step Agent.choose Agent.observe agent reward
      = Ok (agent', None) /\
    Agent.policy agent' = FrequentistPolicy.__init__ N0 /\
    Agent.last_action agent' = None /\
    Agent.action_attempts agent' = S <$> Agent.action_attempts agent.
Proof.
  intros HN Hpol.
  assert (Agent.choose agent =
          Ok (Agent.mk (FrequentistPolicy.__init__ N0) (Agent.k agent)
                (Agent.prior agent) (Agent.gamma agent)
                (Agent.value_estimates agent) (Agent.action_attempts agent)
                (Agent.t agent) None, None)) as Hch.
  { unfold Agent.choose, Agent.policy_choose, FrequentistPolicy.policy.
    rewrite Hpol. unfold FrequentistPolicy.choose. cbn.
    destruct (decide (0 < N0)%Z); [lia|].
    destruct (decide (0 = N0)%Z); [lia|]. done. }
  unfold Environment.step. rewrite Hch, bind_ret. cbn beta iota.
  rewrite observe_no_action by done. rewrite bind_ret. eauto.
Qed.

Lemma frequentist_policy_negative_horizon_witness :
  exists agent',
    Environment.step Agent.choose Agent.observe
      (Agent.__init__ 2 (FrequentistPolicy.__init__ (-1)) 0 None) 5
      = Ok (agent', None) /\
    Agent.policy agent' = FrequentistPolicy.__init__ (-1) /\
    Agent.last_action agent' = None /\
    Agent.action_attempts agent' = S <$> [0; 0]%nat.
Proof.
  apply (frequentist_policy_negative_horizon (-1) 5
           (Agent.__init__ 2 (FrequentistPolicy.__init__ (-1)) 0 None)).
  - lia.
  - reflexivity.
Defined.

(** ** Indices that are not arms *)

(** An integer last action at or beyond the number of arms (such as the
    index [k] that [rand_choice] returns) makes the first statement of
    every [observe] raise IndexError: the base one, inherited by
    FrequentistAgent, and the overrides of GradientAgent and BetaAgent. *)
Theorem observe_rejects_index_beyond_arms {P : Type} (b : Agent.state P)
    (a : nat) (reward : R) :
  Agent.last_action b = Some a ->
  (length (Agent.action_attempts b) <= a)%nat ->
  Agent.observe b reward = Raise IndexError /\
  (forall n0 num last opt,
     FrequentistAgent.observe (FrequentistAgent.mk b n0 num last opt) reward
       = Raise IndexError) /\
  (forall alpha0 baseline0 average,
     GradientAgent.observe (GradientAgent.mk b alpha0 baseline0 average) reward
       = Raise IndexError) /\
  (forall sample nn ts0 alpha0 beta0,
     BetaAgent.observe sample (BetaAgent.mk b nn ts0 alpha0 beta0) reward
       = Raise IndexError).
Proof.
  intros Hla Hlen.
  assert (Agent.observe b reward = Raise IndexError) as Hbase.
  { unfold Agent.observe. now rewrite Hla, iupdate_out_of_range. }
  split; [done|]. split; [|split].
  - intros. unfold FrequentistAgent.observe. cbn. now rewrite Hbase.
  - intros. unfold GradientAgent.observe. cbv zeta.
    cbn [GradientAgent.base]. now rewrite Hla, iupdate_out_of_range.
  - intros. unfold BetaAgent.observe. cbv zeta.
    cbn [BetaAgent.base]. rewrite Hla.
    now rewrite (iupdate_out_of_range (fun _ c => S c)) by done.
Qed.

Lemma observe_rejects_index_beyond_arms_witness :
  Agent.observe (Agent.mk Policy.mk 2 0 None [0; 0] [1; 1]%nat 2 (Some 2%nat)) 1
    = Raise IndexError /\
  (forall n0 num last opt,
     FrequentistAgent.observe
       (FrequentistAgent.mk
          (Agent.mk Policy.mk 2 0 None [0; 0] [1; 1]%nat 2 (Some 2%nat))
          n0 num last opt) 1 = Raise IndexError) /\
  (forall alpha0 baseline0 average,
     GradientAgent.observe
       (GradientAgent.mk
          (Agent.mk Policy.mk 2 0 None [0; 0] [1; 1]%nat 2 (Some 2%nat))
          alpha0 baseline0 average) 1 = Raise IndexError) /\
  (forall sample nn ts0 alpha0 beta0,
     BetaAgent.observe sample
       (BetaAgent.mk
          (Agent.mk Policy.mk 2 0 None [0; 0] [1; 1]%nat 2 (Some 2%nat))
          nn ts0 alpha0 beta0) 1 = Raise IndexError).
Proof.
  apply (observe_rejects_index_beyond_arms
           (Agent.mk Policy.mk 2 0 None [0; 0] [1; 1]%nat 2 (Some 2%nat)) 2 1).
  - reflexivity.
  - cbn. lia.
Defined.

(** ** The base Agent with a fixed step size *)

Section FixedStep.
Context {P : Type} `{!Agent.Policy P}.
Variables g r : R.
Implicit Types self : Agent.state P.



End FixedStep.


